(** * Particle-filter simulator of the sequential category-inference model

    Shallow embedding of the MATLAB functions [sim_r] and [upfun], the model
    code listed with the description of the experimental data, with the
    properties of the belief update, the decision read-out and the conditional
    resampler proved over it.

    Numbers.  MATLAB computes in IEEE doubles.  The embedding keeps what the
    control flow of the code depends on -- the two infinities and NaN, how
    arithmetic and comparisons treat them, and the range of [exp], which
    overflows to Inf and underflows to 0 -- and computes finite results with
    exact real arithmetic: rounding, overflow of the four arithmetic operations
    and the sign of zero are left out.

    Randomness.  [normrnd] and [randsample] read MATLAB's global generator.
    Here each trial receives its draws explicitly: the standard normal deviates
    behind the three [normrnd] calls and the raw integers behind the
    [randsample] call.  Every statement quantifies over all draws. *)

From Stdlib Require Import Reals Lra Lia.
From stdpp Require Import base option list.

(** ** Doubles: reals extended with infinities and NaN *)

Module Dbl.

Inductive dbl : Type :=
| Fin (r : R)
| PInf
| NInf
| NaN.

(** Sign of a finite value, as needed by products and quotients. *)
Definition sgn (r : R) : comparison :=
  if Rlt_dec r 0 then Lt else if Rlt_dec 0 r then Gt else Eq.

(** Infinity of a given sign; a zero sign stands for the invalid
    operations [0 * Inf] and [0 / 0]. *)
Definition inf_of (c : comparison) : dbl :=
  match c with Lt => NInf | Gt => PInf | Eq => NaN end.

Definition dopp (a : dbl) : dbl :=
  match a with
  | Fin r => Fin (- r)
  | PInf => NInf
  | NInf => PInf
  | NaN => NaN
  end.

Definition dadd (a b : dbl) : dbl :=
  match a, b with
  | NaN, _ | _, NaN => NaN
  | Fin x, Fin y => Fin (x + y)
  | PInf, NInf | NInf, PInf => NaN
  | PInf, _ | _, PInf => PInf
  | NInf, _ | _, NInf => NInf
  end.

Definition dsub (a b : dbl) : dbl := dadd a (dopp b).

Definition dmul (a b : dbl) : dbl :=
  match a, b with
  | NaN, _ | _, NaN => NaN
  | Fin x, Fin y => Fin (x * y)
  | Fin x, PInf | PInf, Fin x => inf_of (sgn x)
  | Fin x, NInf | NInf, Fin x => inf_of (CompOpp (sgn x))
  | PInf, PInf | NInf, NInf => PInf
  | PInf, NInf | NInf, PInf => NInf
  end.

(** Division; a finite zero divisor is the positive zero. *)
Definition ddiv (a b : dbl) : dbl :=
  match a, b with
  | NaN, _ | _, NaN => NaN
  | Fin x, Fin y => if Req_dec_T y 0 then inf_of (sgn x) else Fin (x / y)
  | Fin _, _ => Fin 0
  | PInf, Fin y => if Rlt_dec y 0 then NInf else PInf
  | NInf, Fin y => if Rlt_dec y 0 then PInf else NInf
  | _, _ => NaN
  end.

(** The range of doubles under rounding to nearest: a result of
    [2^1024 - 2^970] or more (half a unit in the last place above the largest
    double) becomes an infinity, a positive result of [2^-1075] or less (half
    the smallest double) becomes zero. *)
Definition overflow_bound : R := (2 ^ 1024 - 2 ^ 970)%R.

Definition underflow_bound : R := (/ 2 ^ 1075)%R.

(** Exponential: Inf once the result leaves the range of doubles (for
    arguments above about 709.78), 0 once it falls below it (for arguments
    below about -745.13). *)
Definition dexp (a : dbl) : dbl :=
  match a with
  | Fin r => if Rle_dec overflow_bound (exp r) then PInf
             else if Rle_dec (exp r) underflow_bound then Fin 0
             else Fin (exp r)
  | PInf => PInf
  | NInf => Fin 0
  | NaN => NaN
  end.

(** Natural logarithm.  On a negative argument MATLAB's [log] leaves the
    reals (it returns a complex number); the embedding has no complex values
    and yields NaN there.  Inside [upfun] the argument is negative only for a
    hazard rate outside [0,1]. *)
Definition dlog (a : dbl) : dbl :=
  match a with
  | Fin r => if Req_dec_T r 0 then NInf
             else if Rlt_dec 0 r then Fin (ln r) else NaN
  | PInf => PInf
  | NInf => NaN
  | NaN => NaN
  end.

(** Comparisons; each is false as soon as one side is NaN, except [~=]. *)
Definition dlt (a b : dbl) : bool :=
  match a, b with
  | NaN, _ | _, NaN => false
  | Fin x, Fin y => if Rlt_dec x y then true else false
  | NInf, NInf | PInf, _ | _, NInf => false
  | NInf, _ | _, PInf => true
  end.

Definition dgt (a b : dbl) : bool := dlt b a.

Definition deq (a b : dbl) : bool :=
  match a, b with
  | Fin x, Fin y => if Req_dec_T x y then true else false
  | PInf, PInf | NInf, NInf => true
  | _, _ => false
  end.

Definition dne (a b : dbl) : bool := negb (deq a b).

(** A logical value used as a number. *)
Definition b2d (b : bool) : dbl := if b then Fin 1 else Fin 0.

(** An integer count used as a number. *)
Definition n2d (n : nat) : dbl := Fin (INR n).

End Dbl.

Export Dbl.

Declare Scope dbl_scope.
Delimit Scope dbl_scope with D.
Bind Scope dbl_scope with dbl.
Infix "+" := dadd : dbl_scope.
Infix "-" := dsub : dbl_scope.
Infix "*" := dmul : dbl_scope.
Infix "/" := ddiv : dbl_scope.
Notation "- x" := (dopp x) : dbl_scope.

(** ** [upfun]: the hazard correction of the log-belief *)

(** [x = x+log((1-h)./h+exp(-x))-log((1-h)./h+exp(+x));] *)
Definition upfun (x h : dbl) : dbl :=
  (x + dlog ((Fin 1 - h) / h + dexp (- x)) - dlog ((Fin 1 - h) / h + dexp x))%D.

(** ** Library functions used by [sim_r] *)

(** Square root; as for [dlog], NaN stands for the complex results on
    negative arguments.  [sim_r] takes the root of a sample count only. *)
Definition dsqrt (a : dbl) : dbl :=
  match a with
  | Fin r => if Rlt_dec r 0 then NaN else Fin (sqrt r)
  | PInf => PInf
  | NInf => NaN
  | NaN => NaN
  end.

(** [normrnd(mu,sigma)]: a negative [sigma] is replaced by NaN, and the
    result is [randn .* sigma + mu]; [z] is the deviate [randn] returns. *)
Definition normrnd (mu sigma : dbl) (z : R) : dbl :=
  let sigma := if dlt sigma (Fin 0) then NaN else sigma in
  (Fin z * sigma + mu)%D.

(** [normrnd] on a row: one deviate per element, [z j] for element [j]. *)
Definition vnormrnd (mu : list dbl) (sigma : dbl) (z : nat -> R) : list dbl :=
  imap (fun j m => normrnd m sigma (z j)) mu.

(** [any] and [mean] of a logical row; [find] gives the 1-based positions of
    its true entries. *)
Definition any (l : list bool) : bool := existsb (fun b => b) l.

Fixpoint nnz (l : list bool) : nat :=
  match l with
  | [] => 0
  | b :: l' => (if b then 1 else 0) + nnz l'
  end.

Definition mean (l : list bool) : dbl := (n2d (nnz l) / n2d (length l))%D.

Fixpoint find_from (i : nat) (l : list bool) : list nat :=
  match l with
  | [] => []
  | b :: l' => if b then i :: find_from (S i) l' else find_from (S i) l'
  end.

Definition find (l : list bool) : list nat := find_from 1 l.

(** [randi(n)]: an integer of 1..n, from a raw draw [u]. *)
Definition randi (n u : nat) : nat := S (u mod n).

(** [randsample(population,k,true)]: [k] draws with replacement.  As in
    MATLAB, a first argument that is a single nonnegative integer [n] is not
    taken as a population of one value: it stands for the population [1:n].
    Draw [i] uses the raw integer [u i].  An empty population with [k > 0] is
    an error. *)
Definition randsample (population : list nat) (k : nat) (u : nat -> nat)
  : option (list nat) :=
  match population with
  | [n] =>
      if (n =? 0)%nat then (if (k =? 0)%nat then Some [] else None)
      else Some (map (fun i => randi n (u i)) (seq 0 k))
  | _ =>
      mapM (fun i => population !! (randi (length population) (u i) - 1)%nat)
           (seq 0 k)
  end.

(** [x(idx)]: 1-based indexing of a row by a row of positions; a position
    outside the row is an error. *)
Definition index1 (x : list dbl) (i : nat) : option dbl :=
  match i with
  | O => None
  | S i' => x !! i'
  end.

Definition index_row (x : list dbl) (idx : list nat) : option (list dbl) :=
  mapM (index1 x) idx.

(** ** Inputs of [sim_r] *)

(** The arguments of [sim_r]. *)
Record params : Type := mkParams {
  h : dbl;      (* perceived hazard rate *)
  sinf : dbl;   (* inference noise *)
  ssel : dbl;   (* selection noise *)
  scnf : dbl;   (* metacognitive noise *)
  tcnf : dbl;   (* confidence threshold *)
  gcnf : dbl    (* confidence gain during switches *)
}.

(** What the set-up code of [sim_r] (not part of the listing) provides for
    sequence [iseq]: [seqind(iseq)], [seqllr(iseq)], [seqlen(iseq)] and the
    subject's data [cfg.rbef(iseq)], [cfg.cbef(iseq)], [cfg.raft(iseq)],
    [cfg.caft(iseq)]. *)
Record trial : Type := mkTrial {
  seqind : nat;
  seqllr : dbl;
  seqlen : nat;
  cfg_rbef : dbl;
  cfg_cbef : dbl;
  cfg_raft : dbl;
  cfg_caft : dbl
}.

(** The remaining free variables of the listing: the number of particles
    [nsmp], the flags [fitcnf] and [resamp], and the sequences ([nseq] is
    their number). *)
Record setup : Type := mkSetup {
  nsmp : nat;
  fitcnf : bool;
  resamp : bool;
  trials : list trial
}.

Definition nseq (C : setup) : nat := length (trials C).

(** The random draws of one sequence: the deviates of the three [normrnd]
    calls, per particle, and the raw integers of [randsample], per draw. *)
Record draws : Type := mkDraws {
  zinf : nat -> R;
  zsel : nat -> R;
  zcnf : nat -> R;
  ures : nat -> nat
}.

(** ** State of [sim_r] *)

(** Row [iseq] of the arrays [xt], [rbef], [raft], [cbef], [caft] and entry
    [iseq] of [psmp].  The six arrays are only ever read and written one row
    at a time, at the same row: the state is the list of these rows. *)
Record row : Type := mkRow {
  xt : list dbl;
  rbef : list dbl;
  raft : list dbl;
  cbef : list dbl;
  caft : list dbl;
  psmp : dbl
}.

Abbreviation state := (list row).

(** [zeros], [nan], [nan], [nan], [nan], [ones]. *)
Definition init_row (n : nat) : row :=
  {| xt := replicate n (Fin 0);
     rbef := replicate n NaN;
     raft := replicate n NaN;
     cbef := replicate n NaN;
     caft := replicate n NaN;
     psmp := Fin 1 |}.

Definition init_state (C : setup) : state :=
  replicate (nseq C) (init_row (nsmp C)).

(** [a(iseq,:) = v] for a scalar [v]. *)
Definition fill (a : list dbl) (v : dbl) : list dbl :=
  replicate (length a) v.

(** ** The body of the loop of [sim_r] *)

(** [seqind(iseq) > 1] *)
Definition continues (t : trial) : bool := (1 <? seqind t)%nat.

(** Set response before sequence. *)
Definition set_rbef (t : trial) (prev : option row) (cur : row)
  : option (list dbl) :=
  if continues t then raft <$> prev
  else Some (fill (rbef cur) (cfg_rbef t)).

(** Set confidence before sequence. *)
Definition set_cbef (C : setup) (t : trial) (prev : option row) (cur : row)
  : option (list dbl) :=
  if fitcnf C then
    if continues t then caft <$> prev
    else Some (fill (cbef cur) (cfg_cbef t))
  else Some (cbef cur).

(** Update log-belief, first half: [xt(iseq,:) = upfun(xt(iseq-1,:),h)] when
    the sequence is not the first of its block. *)
Definition correct_belief (P : params) (t : trial) (prev : option row)
  (cur : row) : option (list dbl) :=
  if continues t then (fun r => map (fun x => upfun x (h P)) (xt r)) <$> prev
  else Some (xt cur).

(** [sqrt(seqlen(iseq))*sinf] *)
Definition inference_sd (P : params) (t : trial) : dbl :=
  (dsqrt (n2d (seqlen t)) * sinf P)%D.

(** Second half:
    [xt(iseq,:) = normrnd(xt(iseq,:)+seqllr(iseq),sqrt(seqlen(iseq))*sinf)]. *)
Definition accumulate (P : params) (t : trial) (d : draws) (x : list dbl)
  : list dbl :=
  vnormrnd (map (fun xj => (xj + seqllr t)%D) x) (inference_sd P t) (zinf d).

Definition belief (P : params) (t : trial) (d : draws) (prev : option row)
  (cur : row) : option (list dbl) :=
  accumulate P t d <$> correct_belief P t prev cur.

(** Apply selection noise and compute response:
    [xr = normrnd(xt(iseq,:),ssel); raft(iseq,:) = 1+(xr < 0)]. *)
Definition respond (xr : dbl) : dbl := (Fin 1 + b2d (dlt xr (Fin 0)))%D.

Definition response (P : params) (d : draws) (x : list dbl) : list dbl :=
  map respond (vnormrnd x (ssel P) (zsel d)).

(** Log-belief in favor of response:
    [xc = xt(iseq,:).*(3-2*raft(iseq,:))]. *)
Definition favor (x r : dbl) : dbl := (x * (Fin 3 - Fin 2 * r))%D.

(** Confidence gain during switches: [xc(iswi) = xc(iswi)*gcnf]. *)
Definition gain (P : params) (xc : dbl) (swi : bool) : dbl :=
  if swi then (xc * gcnf P)%D else xc.

(** [caft(iseq,:) = 1+(xc > tcnf)] *)
Definition judge (P : params) (xc : dbl) : dbl :=
  (Fin 1 + b2d (dgt xc (tcnf P)))%D.

(** The confidence block: [xc], [iswi = raft(iseq,:) ~= rbef(iseq,:)], the
    gain, the confidence noise [xc = normrnd(xc,scnf)] and the confidence. *)
Definition confidence (P : params) (d : draws) (x r rb : list dbl)
  : list dbl :=
  let xc := zip_with favor x r in
  let iswi := zip_with dne r rb in
  let xc := zip_with (gain P) xc iswi in
  map (judge P) (vnormrnd xc (scnf P) (zcnf d)).

(** A particle agrees with the subject: same response and, when confidence
    is fitted, same confidence. *)
Definition particle_matches (C : setup) (t : trial) (rj cj : dbl) : bool :=
  deq rj (cfg_raft t) && (if fitcnf C then deq cj (cfg_caft t) else true).

(** The particles to keep: [ires]. *)
Definition survivors (C : setup) (t : trial) (r c : list dbl) : list bool :=
  if fitcnf C then
    zip_with andb (map (fun rj => deq rj (cfg_raft t)) r)
                  (map (fun cj => deq cj (cfg_caft t)) c)
  else map (fun rj => deq rj (cfg_raft t)) r.

(** Resample log-belief:
    [if any(ires) xt(iseq,:) = xt(iseq,randsample(find(ires),nsmp,true));
     else xt(iseq,:) = 0; end]. *)
Definition resample (C : setup) (d : draws) (x : list dbl) (ires : list bool)
  : option (list dbl) :=
  if any ires then
    idx ← randsample (find ires) (nsmp C) (ures d);
    index_row x idx
  else Some (fill x (Fin 0)).

(** One pass of the loop body for sequence [iseq]: [prev] is row [iseq-1] of
    the arrays (there is none when [iseq = 1]: reading it is an indexing
    error), [cur] is row [iseq] as the pass finds it. *)
Definition trial_body (P : params) (C : setup) (t : trial) (d : draws)
  (prev : option row) (cur : row) : option row :=
  rb ← set_rbef t prev cur;
  cb ← set_cbef C t prev cur;
  x ← belief P t d prev cur;
  let r := response P d x in
  let c := if fitcnf C then confidence P d x r rb else caft cur in
  if resamp C then
    let ires := survivors C t r c in
    x' ← resample C d x ires;
    Some {| xt := x'; rbef := rb; raft := r; cbef := cb; caft := c;
            psmp := mean ires |}
  else
    Some {| xt := x; rbef := rb; raft := r; cbef := cb; caft := c;
            psmp := psmp cur |}.

(** Row [iseq-1], for the pass at 0-based position [i] ([iseq = i+1]). *)
Definition prev_row (st : state) (i : nat) : option row :=
  match i with
  | O => None
  | S k => st !! k
  end.

Definition iter (P : params) (C : setup) (N : nat -> draws) (i : nat)
  (st : state) : option state :=
  t ← trials C !! i;
  cur ← st !! i;
  r ← trial_body P C t (N i) (prev_row st i) cur;
  Some (<[i := r]> st).

(** [for iseq = ...] over the given positions. *)
Fixpoint loop (P : params) (C : setup) (N : nat -> draws) (js : list nat)
  (st : state) : option state :=
  match js with
  | [] => Some st
  | i :: js' => st' ← iter P C N i st; loop P C N js' st'
  end.

(** [sim_r]: the arrays after [for iseq = 1:nseq]; [None] when the run stops
    on an error. *)
Definition sim_r (P : params) (C : setup) (N : nat -> draws) : option state :=
  loop P C N (seq 0 (nseq C)) (init_state C).

(** ** Notions used in the statements *)

(** Bootstrap closure: every belief after resampling, [x'], is the belief
    before resampling, in [x], of a particle that [ires] keeps. *)
Definition bootstrap_closed (x : list dbl) (ires : list bool)
  (x' : list dbl) : Prop :=
  forall v, v ∈ x' -> exists j, ires !! j = Some true /\ x !! j = Some v.

(** The first sequence of the run opens a block, so that the first pass of
    the loop does not read row 0. *)
Definition well_started (C : setup) : bool :=
  match trials C with
  | [] => true
  | t :: _ => negb (continues t)
  end.

(** All rows of the arrays have the same width. *)
Definition row_wf (n : nat) (r : row) : Prop :=
  length (xt r) = n /\ length (rbef r) = n /\ length (raft r) = n /\
  length (cbef r) = n /\ length (caft r) = n.

(** Row [i] of the final arrays is what the loop body computes from row
    [i-1] of the final arrays and the untouched initial row. *)
Definition row_ok (P : params) (C : setup) (N : nat -> draws) (st : state)
  (i : nat) : Prop :=
  exists t r,
    trials C !! i = Some t /\ st !! i = Some r /\ row_wf (nsmp C) r /\
    trial_body P C t (N i) (prev_row st i) (init_row (nsmp C)) = Some r.

(** Invariant of the loop before the pass at position [k]. *)
Definition loop_inv (P : params) (C : setup) (N : nat -> draws) (k : nat)
  (st : state) : Prop :=
  length st = nseq C /\
  (forall i, (i < k)%nat -> row_ok P C N st i) /\
  (forall i, (k <= i < nseq C)%nat -> st !! i = Some (init_row (nsmp C))).

(** Zero noise: [sinf = ssel = scnf = 0]. *)
Definition noiseless (P : params) : Prop :=
  sinf P = Fin 0 /\ ssel P = Fin 0 /\ scnf P = Fin 0.

(** ** The sign-based classifier of the specification

    Response 1 when the accumulated log-likelihood ratio is non-negative,
    response 2 when it is negative; the evidence is accumulated over the
    sequences of a block. *)
Definition sign_classifier (e : dbl) : dbl :=
  if dlt e (Fin 0) then Fin 2 else Fin 1.

Fixpoint accumulated (ts : list trial) (acc : dbl) : list dbl :=
  match ts with
  | [] => []
  | t :: ts' =>
      let a := ((if continues t then acc else Fin 0) + seqllr t)%D in
      a :: accumulated ts' a
  end.

Definition spec_responses (ts : list trial) : list dbl :=
  map sign_classifier (accumulated ts (Fin 0)).

(** ** [sim_r] with zero noise and [h = 0], in closed form

    The belief after the evidence step, the response and the confidence of
    every particle, and the row the loop body writes. *)
Definition h0_belief (t : trial) : dbl :=
  if continues t then NaN else (Fin 0 + seqllr t)%D.

Definition h0_response (t : trial) : dbl :=
  if continues t then Fin 1 else sign_classifier (seqllr t).

Definition h0_confidence (P : params) (t : trial) : dbl :=
  judge P (if continues t then NaN
           else gain P (favor (h0_belief t) (h0_response t))
                       (dne (h0_response t) (cfg_rbef t))).

Definition h0_row (P : params) (C : setup) (t : trial) (rb cb : list dbl)
  : row :=
  let cc := if fitcnf C then h0_confidence P t else NaN in
  let m := particle_matches C t (h0_response t) cc in
  {| xt := replicate (nsmp C)
             (if resamp C && negb m then Fin 0 else h0_belief t);
     rbef := rb;
     raft := replicate (nsmp C) (h0_response t);
     cbef := cb;
     caft := replicate (nsmp C) cc;
     psmp := if resamp C then mean (replicate (nsmp C) m) else Fin 1 |}.

(** ** Notions used in the further properties *)

(** Particle [j] is the same in two rows. *)
Definition same_particle (j : nat) (r r' : row) : Prop :=
  xt r !! j = xt r' !! j /\ rbef r !! j = rbef r' !! j /\
  raft r !! j = raft r' !! j /\ cbef r !! j = cbef r' !! j /\
  caft r !! j = caft r' !! j.

(** Two realisations of the noise give particle [j] the same deviates. *)
Definition same_draws_at (j : nat) (N N' : nat -> draws) : Prop :=
  forall i, zinf (N i) j = zinf (N' i) j /\ zsel (N i) j = zsel (N' i) j /\
            zcnf (N i) j = zcnf (N' i) j.

(** The set-up with other sequences. *)
Definition with_trials (C : setup) (ts : list trial) : setup :=
  {| nsmp := nsmp C; fitcnf := fitcnf C; resamp := resamp C; trials := ts |}.

(** All particles of a row are alike. *)
Definition uniform_row (n : nat) (r : row) : Prop :=
  exists x rb rr cb cc : dbl,
    xt r = replicate n x /\ rbef r = replicate n rb /\
    raft r = replicate n rr /\ cbef r = replicate n cb /\
    caft r = replicate n cc.

(** The row the loop body writes without noise, when every particle enters
    with the belief [b0], the response [rb] and the confidence [cb] before
    the sequence. *)
Definition quiet_row (P : params) (C : setup) (t : trial) (rb cb b0 : dbl)
  : row :=
  let b := (b0 + seqllr t)%D in
  let rr := respond b in
  let cc := if fitcnf C then judge P (gain P (favor b rr) (dne rr rb))
            else NaN in
  let m := particle_matches C t rr cc in
  {| xt := replicate (nsmp C) (if resamp C && negb m then Fin 0 else b);
     rbef := replicate (nsmp C) rb;
     raft := replicate (nsmp C) rr;
     cbef := replicate (nsmp C) cb;
     caft := replicate (nsmp C) cc;
     psmp := if resamp C then mean (replicate (nsmp C) m) else Fin 1 |}.

(** ** Example inputs *)

Definition no_draws : draws :=
  {| zinf := fun _ => 0%R; zsel := fun _ => 0%R; zcnf := fun _ => 0%R;
     ures := fun _ => 0%nat |}.

(** The scenario of the specification: four particles, [h = 0.1], no noise,
    one sequence that opens a block with evidence [+2]; the subject answered
    [obs]. *)
Definition ex_quiet_params : params :=
  mkParams (Fin (1 / 10)) (Fin 0) (Fin 0) (Fin 0) (Fin 0) (Fin 1).

Definition ex_quiet_trial (obs : dbl) : trial :=
  mkTrial 1 (Fin 2) 2 (Fin 1) (Fin 1) obs (Fin 1).

Definition ex_quiet_setup (obs : dbl) : setup :=
  mkSetup 4 false true [ex_quiet_trial obs].

(** The row [sim_r] writes for it: belief [x] and weight [w]. *)
Definition ex_quiet_row (x w : dbl) : row :=
  {| xt := replicate 4 x;
     rbef := replicate 4 (Fin 1);
     raft := replicate 4 (Fin 1);
     cbef := replicate 4 NaN;
     caft := replicate 4 NaN;
     psmp := w |}.

(** Zero noise and [h = 0]: one particle, a block of two sequences with
    evidence [-1] each, forward simulation. *)
Definition ex_h0_params : params :=
  mkParams (Fin 0) (Fin 0) (Fin 0) (Fin 0) (Fin 0) (Fin 1).

Definition ex_h0_trial (k : nat) : trial :=
  mkTrial k (Fin (-1)) 2 (Fin 1) (Fin 1) (Fin 2) (Fin 1).

Definition ex_h0_setup : setup :=
  mkSetup 1 false false [ex_h0_trial 1; ex_h0_trial 2].

(** A single survivor that is not the first particle: two particles,
    inference noise only, one sequence of four samples that opens a block with
    evidence [+1]; the first particle draws the deviate [-3], the second [0];
    the subject answered 1; every raw integer of [randsample] is 0. *)
Definition ex_lone_params : params :=
  mkParams (Fin (1 / 10)) (Fin 1) (Fin 0) (Fin 0) (Fin 0) (Fin 1).

Definition ex_lone_trial : trial :=
  mkTrial 1 (Fin 1) 4 (Fin 1) (Fin 1) (Fin 1) (Fin 1).

Definition ex_lone_setup : setup := mkSetup 2 false true [ex_lone_trial].

Definition ex_lone_draws : draws :=
  {| zinf := fun j => match j with O => (-3)%R | _ => 0%R end;
     zsel := fun _ => 0%R; zcnf := fun _ => 0%R; ures := fun _ => 0%nat |}.

(** The row [sim_r] writes for it. *)
Definition ex_lone_row : row :=
  {| xt := [Fin (-5); Fin (-5)];
     rbef := [Fin 1; Fin 1];
     raft := [Fin 2; Fin 1];
     cbef := [NaN; NaN];
     caft := [NaN; NaN];
     psmp := Fin (1 / 2) |}.

(** * Properties *)

(** ** Arithmetic of doubles *)

Ltac rdec :=
  repeat match goal with
    | |- context [Rlt_dec ?a ?b] => destruct (Rlt_dec a b); try lra
    | |- context [Req_dec_T ?a ?b] => destruct (Req_dec_T a b); try lra
    | |- context [Rle_dec ?a ?b] => destruct (Rle_dec a b); try lra
    end.

Lemma Fin_eq (a b : R) : a = b -> Fin a = Fin b.
Proof. intros ->. reflexivity. Qed.

Lemma respond_cases (xr : dbl) :
  respond xr = if dlt xr (Fin 0) then Fin 2 else Fin 1.
Proof.
  unfold respond. destruct (dlt xr (Fin 0)); simpl; apply Fin_eq; lra.
Qed.

Lemma judge_cases (P : params) (xc : dbl) :
  judge P xc = if dgt xc (tcnf P) then Fin 2 else Fin 1.
Proof.
  unfold judge. destruct (dgt xc (tcnf P)); simpl; apply Fin_eq; lra.
Qed.

(** Without noise [normrnd] returns its mean. *)
Lemma normrnd_zero (mu : dbl) (z : R) : normrnd mu (Fin 0) z = mu.
Proof.
  unfold normrnd. simpl. rdec. destruct mu; simpl; try done.
  apply Fin_eq. lra.
Qed.

(** The range of doubles. *)
Lemma overflow_bound_large : (2 ^ 64 <= overflow_bound)%R.
Proof.
  unfold overflow_bound.
  replace (2 ^ 1024)%R with (2 ^ 970 * 2 ^ 54)%R
    by (rewrite <- pow_add; reflexivity).
  assert (H1 : (2 ^ 64 <= 2 ^ 970)%R) by (apply Rle_pow; [lra | lia]).
  assert (H2 : (2 <= 2 ^ 54)%R).
  { replace 2%R with (2 ^ 1)%R at 1 by lra. apply Rle_pow; [lra | lia]. }
  assert (0 < 2 ^ 970)%R by (apply pow_lt; lra).
  nra.
Qed.

Lemma overflow_bound_le : (overflow_bound <= 2 ^ 1024)%R.
Proof.
  unfold overflow_bound. assert (0 < 2 ^ 970)%R by (apply pow_lt; lra). lra.
Qed.

Lemma underflow_below (y : R) :
  (0 < y)%R -> (y < overflow_bound)%R -> (underflow_bound < / y)%R.
Proof.
  intros Hy Hlt. unfold underflow_bound.
  pose proof overflow_bound_le.
  assert (2 ^ 1024 < 2 ^ 1075)%R by (apply Rlt_pow; [lra | lia]).
  apply Rinv_lt_contravar; [|lra].
  apply Rmult_lt_0_compat; [done |]. apply pow_lt. lra.
Qed.

Lemma exp_Rabs_bounds (x : R) :
  (exp x <= exp (Rabs x))%R /\ (/ exp (Rabs x) <= exp x)%R.
Proof.
  unfold Rabs. destruct (Rcase_abs x) as [Hneg|Hpos].
  - split.
    + left. apply exp_increasing. lra.
    + rewrite exp_Ropp, Rinv_inv. lra.
  - split; [lra |]. rewrite <- exp_Ropp.
    destruct (Req_dec x 0) as [->|Hne].
    + rewrite Ropp_0. lra.
    + left. apply exp_increasing. lra.
Qed.

(** Inside the range [exp] is the real exponential. *)
Lemma dexp_in_range (x : R) :
  (exp (Rabs x) < overflow_bound)%R -> dexp (Fin x) = Fin (exp x).
Proof.
  intros Hx. destruct (exp_Rabs_bounds x) as [Hup Hlow].
  pose proof (underflow_below _ (exp_pos (Rabs x)) Hx).
  simpl. rdec. done.
Qed.

(** Above the range it is Inf, and the exponential of the opposite is a
    finite number that is not negative. *)
Lemma dexp_overflow (x : R) :
  (overflow_bound <= exp x)%R ->
  dexp (Fin x) = PInf /\
  exists y : R, dexp (Fin (- x)) = Fin y /\ (0 <= y)%R.
Proof.
  intros Hx. pose proof overflow_bound_large as Hl.
  assert (H64 : (1 < 2 ^ 64)%R).
  { replace 1%R with (2 ^ 0)%R by (simpl; lra). apply Rlt_pow; [lra | lia]. }
  split; [simpl; rdec; done |].
  assert (Hinv : (exp (- x) < 1)%R).
  { rewrite exp_Ropp, <- Rinv_1. apply Rinv_lt_contravar; lra. }
  pose proof (exp_pos (- x)).
  simpl. destruct (Rle_dec overflow_bound (exp (- x))); [lra |].
  destruct (Rle_dec (exp (- x)) underflow_bound); eexists; split; try done; lra.
Qed.

Lemma odds_pos (hr : R) : (0 < hr < 1)%R -> (0 < (1 - hr) / hr)%R.
Proof. intros Hh. apply Rdiv_lt_0_compat; lra. Qed.

(** As long as no intermediate result leaves the range of doubles, [upfun]
    is the formula on the reals. *)
Lemma upfun_finite (x hr : R) :
  (0 < hr < 1)%R ->
  ((1 - hr) / hr + exp (Rabs x) < overflow_bound)%R ->
  upfun (Fin x) (Fin hr)
  = Fin (x + ln ((1 - hr) / hr + exp (- x)) - ln ((1 - hr) / hr + exp x)).
Proof.
  intros Hh Hrange.
  pose proof (odds_pos hr Hh) as Ha.
  pose proof (exp_pos x) as He. pose proof (exp_pos (- x)) as He'.
  unfold upfun. change (- Fin x)%D with (Fin (- x)).
  rewrite !dexp_in_range by (rewrite ?Rabs_Ropp; lra).
  simpl. rdec. simpl. rdec. simpl. rdec. simpl.
  apply Fin_eq. unfold Rminus, Rdiv. lra.
Qed.

(** Beyond the range there is no guard: [exp(x)] is Inf, its logarithm is
    Inf, and the result is -Inf (the odds themselves being inside the
    range). *)
Lemma upfun_overflow (x hr : R) :
  (0 < hr < 1)%R -> ((1 - hr) / hr < overflow_bound)%R ->
  (overflow_bound <= exp x)%R ->
  upfun (Fin x) (Fin hr) = NInf.
Proof.
  intros Hh _ Hx. pose proof (odds_pos hr Hh) as Ha.
  destruct (dexp_overflow x Hx) as (Hpos & y & Hneg & Hy).
  unfold upfun. change (- Fin x)%D with (Fin (- x)).
  rewrite Hpos, Hneg. simpl. rdec. simpl. rdec. done.
Qed.

Lemma exp_INR (n : nat) : exp (INR n) = (exp 1 ^ n)%R.
Proof.
  induction n as [|n IH].
  - simpl. apply exp_0.
  - rewrite S_INR, exp_plus, IH. simpl. ring.
Qed.

Lemma exp_1024_overflows : (overflow_bound <= exp 1024)%R.
Proof.
  replace 1024%R with (INR 1024) by (rewrite INR_IZR_INZ; reflexivity).
  rewrite exp_INR.
  pose proof overflow_bound_le.
  assert (2 ^ 1024 <= exp 1 ^ 1024)%R.
  { apply pow_incr. pose proof (exp_ineq1_le 1). lra. }
  lra.
Qed.

(** With a hazard rate of zero the quotient [(1-h)./h] is infinite and the
    two logarithms cancel to NaN, whatever the belief. *)
Lemma upfun_h0 (x : dbl) : upfun x (Fin 0) = NaN.
Proof.
  unfold upfun. destruct x; simpl; rdec; simpl; try done.
  all: unfold sgn; rdec; simpl; done.
Qed.

(** ** Rows *)

Lemma length_vnormrnd (mu : list dbl) (sigma : dbl) (z : nat -> R) :
  length (vnormrnd mu sigma z) = length mu.
Proof. unfold vnormrnd. apply length_imap. Qed.

Lemma lookup_vnormrnd (mu : list dbl) (sigma : dbl) (z : nat -> R) (j : nat) :
  vnormrnd mu sigma z !! j = (fun m => normrnd m sigma (z j)) <$> mu !! j.
Proof. unfold vnormrnd. apply list_lookup_imap. Qed.

Lemma length_accumulate P t d (x : list dbl) :
  length (accumulate P t d x) = length x.
Proof. unfold accumulate. by rewrite length_vnormrnd, length_map. Qed.

Lemma lookup_accumulate P t d (x : list dbl) (j : nat) :
  accumulate P t d x !! j
  = (fun xj => normrnd (xj + seqllr t)%D (inference_sd P t) (zinf d j))
      <$> x !! j.
Proof.
  unfold accumulate. rewrite lookup_vnormrnd, list_lookup_fmap.
  by destruct (x !! j).
Qed.

Lemma length_response P d (x : list dbl) :
  length (response P d x) = length x.
Proof. unfold response. by rewrite length_map, length_vnormrnd. Qed.

Lemma lookup_response P d (x : list dbl) (j : nat) :
  response P d x !! j
  = (fun xj => respond (normrnd xj (ssel P) (zsel d j))) <$> x !! j.
Proof.
  unfold response. rewrite list_lookup_fmap, lookup_vnormrnd.
  by destruct (x !! j).
Qed.

Lemma length_confidence P d (x r rb : list dbl) :
  length r = length x -> length rb = length x ->
  length (confidence P d x r rb) = length x.
Proof.
  intros Hr Hrb. unfold confidence.
  rewrite length_map, length_vnormrnd, !length_zip_with.
  lia.
Qed.

Lemma lookup_confidence P d (x r rb : list dbl) (j : nat) xj rj rbj :
  x !! j = Some xj -> r !! j = Some rj -> rb !! j = Some rbj ->
  confidence P d x r rb !! j
  = Some (judge P (normrnd (gain P (favor xj rj) (dne rj rbj))
                           (scnf P) (zcnf d j))).
Proof.
  intros Hx Hr Hrb. unfold confidence.
  rewrite list_lookup_fmap, lookup_vnormrnd, !lookup_zip_with.
  rewrite Hx, Hr, Hrb. done.
Qed.

Lemma length_survivors C t (r c : list dbl) :
  length c = length r -> length (survivors C t r c) = length r.
Proof.
  intros Hc. unfold survivors. destruct (fitcnf C).
  - rewrite length_zip_with, !length_map. lia.
  - by rewrite length_map.
Qed.

Lemma lookup_survivors C t (r c : list dbl) (j : nat) rj cj :
  r !! j = Some rj -> c !! j = Some cj ->
  survivors C t r c !! j = Some (particle_matches C t rj cj).
Proof.
  intros Hr Hc. unfold survivors, particle_matches. destruct (fitcnf C).
  - rewrite lookup_zip_with, !list_lookup_fmap, Hr, Hc. done.
  - rewrite list_lookup_fmap, Hr. simpl. by rewrite andb_true_r.
Qed.

(** [ires] marks exactly the particles that agree with the subject. *)
Lemma survivors_zip C t (r c : list dbl) :
  length c = length r ->
  survivors C t r c = zip_with (particle_matches C t) r c.
Proof.
  intros Hlen. apply list_eq. intros j.
  destruct (r !! j) as [rj|] eqn:Hr.
  - destruct (lookup_lt_is_Some_2 c j) as [cj Hc].
    { rewrite Hlen. by eapply lookup_lt_Some. }
    rewrite (lookup_survivors C t r c j rj cj Hr Hc).
    rewrite lookup_zip_with, Hr, Hc. done.
  - rewrite lookup_zip_with, Hr. simpl.
    apply lookup_ge_None. rewrite length_survivors by done.
    by apply lookup_ge_None.
Qed.

Lemma init_row_wf (n : nat) : row_wf n (init_row n).
Proof. unfold row_wf, init_row. simpl. by rewrite !length_replicate. Qed.

(** ** Logical rows: [any], [mean], [find] *)

Lemma any_true (l : list bool) :
  any l = true <-> exists j, l !! j = Some true.
Proof.
  unfold any. induction l as [|b l IH]; simpl.
  - split; [done | intros [j Hj]; done].
  - destruct b; simpl.
    + split; [intros _; by exists 0%nat | done].
    + rewrite IH. split.
      * intros [j Hj]. by exists (S j).
      * intros [[|j] Hj]; [done | by exists j].
Qed.

Lemma any_false (l : list bool) :
  any l = false <-> forall j, l !! j <> Some true.
Proof.
  rewrite <- not_true_iff_false, any_true. split.
  - intros Hn j Hj. apply Hn. by exists j.
  - intros Hn [j Hj]. by apply (Hn j).
Qed.

Lemma nnz_le (l : list bool) : (nnz l <= length l)%nat.
Proof. induction l as [|[] l IH]; simpl; lia. Qed.

Lemma nnz_zero (l : list bool) : nnz l = 0%nat <-> any l = false.
Proof.
  unfold any. induction l as [|[] l IH]; simpl; try done.
Qed.

Lemma nnz_full (l : list bool) :
  nnz l = length l <-> forall j b, l !! j = Some b -> b = true.
Proof.
  induction l as [|b l IH]; simpl.
  - split; [intros _ j b Hj; done | done].
  - pose proof (nnz_le l) as Hle. destruct b; simpl.
    + split.
      * intros Hn [|j] b Hj; simpl in Hj; [congruence |].
        apply IH in Hj; [done | lia].
      * intros Hall. f_equal. apply IH. intros j b Hj.
        by apply (Hall (S j)).
    + split; [lia |]. intros Hall. by specialize (Hall 0%nat false eq_refl).
Qed.

Lemma elem_of_find_from (l : list bool) (i idx : nat) :
  idx ∈ find_from i l <-> exists j, idx = (i + j)%nat /\ l !! j = Some true.
Proof.
  revert i. induction l as [|b l IH]; intros i; simpl.
  - split; [intros Hin; inversion Hin | intros [j [_ Hj]]; done].
  - assert (Hrec : idx ∈ find_from (S i) l
                   <-> exists j, idx = (i + S j)%nat /\ l !! j = Some true).
    { rewrite IH. split; intros [j [-> Hj]]; exists j; split; auto; lia. }
    destruct b.
    + rewrite elem_of_cons, Hrec. split.
      * intros [-> | [j [-> Hj]]]; [exists 0%nat | exists (S j)]; split;
          auto; lia.
      * intros [[|j] [-> Hj]]; [left; lia | right; by exists j].
    + rewrite Hrec. split.
      * intros [j [-> Hj]]. by exists (S j).
      * intros [[|j] [-> Hj]]; [done | by exists j].
Qed.

Lemma elem_of_find (l : list bool) (idx : nat) :
  idx ∈ find l <-> exists j, idx = S j /\ l !! j = Some true.
Proof. unfold find. apply elem_of_find_from. Qed.

Lemma find_range (l : list bool) (idx : nat) :
  idx ∈ find l -> (1 <= idx <= length l)%nat.
Proof.
  intros [j [-> Hj]]%elem_of_find. apply lookup_lt_Some in Hj. lia.
Qed.

Lemma find_nonempty (l : list bool) : any l = true -> find l <> [].
Proof.
  intros [j Hj]%any_true Hnil.
  assert (Hin : S j ∈ find l) by (apply elem_of_find; by exists j).
  rewrite Hnil in Hin. inversion Hin.
Qed.

Lemma length_find_from (l : list bool) (i : nat) :
  length (find_from i l) = nnz l.
Proof.
  revert i. induction l as [|[] l IH]; intros i; simpl; by rewrite ?IH.
Qed.

(** ** [randsample] and the indexing by its result *)

Lemma randi_range (n u : nat) : (0 < n)%nat -> (1 <= randi n u <= n)%nat.
Proof.
  intros Hn. unfold randi.
  pose proof (Nat.mod_upper_bound u n). lia.
Qed.

(** On a population of at least two values every draw is one of them. *)
Lemma randsample_vector (pop : list nat) (k : nat) (u : nat -> nat) :
  (2 <= length pop)%nat ->
  exists idx, randsample pop k u = Some idx /\ length idx = k /\
              Forall (fun i => i ∈ pop) idx.
Proof.
  intros Hlen. unfold randsample.
  destruct pop as [|a [|b pop]]; simpl in Hlen; try lia.
  set (p := a :: b :: pop) in *.
  assert (Hall : Forall (fun i => is_Some (p !! (randi (length p) (u i) - 1)%nat))
                        (seq 0 k)).
  { apply Forall_forall. intros i _. apply lookup_lt_is_Some.
    pose proof (randi_range (length p) (u i)). simpl in *. lia. }
  apply (mapM_is_Some_2 (fun i => p !! (randi (length p) (u i) - 1)%nat))
    in Hall as [idx Hidx].
  exists idx. split; [done |].
  pose proof (length_mapM _ _ _ Hidx) as Hl. rewrite length_seq in Hl.
  split; [done |].
  apply mapM_Some_1 in Hidx. clear Hl.
  induction Hidx as [|i y js ys Hy _ IH]; constructor; [|done].
  by apply list_elem_of_lookup_2 in Hy.
Qed.

(** On a single value [n] the draws are integers of [1..n]. *)
Lemma randsample_scalar (n k : nat) (u : nat -> nat) :
  (0 < n)%nat ->
  randsample [n] k u = Some (map (fun i => randi n (u i)) (seq 0 k)).
Proof.
  intros Hn. unfold randsample. destruct (Nat.eqb_spec n 0); [lia | done].
Qed.

(** The positions drawn for a logical row with a true entry exist, are as
    many as asked for, and lie inside the row. *)
Lemma randsample_find (ires : list bool) (k : nat) (u : nat -> nat) :
  any ires = true ->
  exists idx, randsample (find ires) k u = Some idx /\ length idx = k /\
              Forall (fun i => (1 <= i <= length ires)%nat) idx.
Proof.
  intros Hany. pose proof (find_nonempty _ Hany) as Hne.
  destruct (find ires) as [|n [|m pop]] eqn:Hf; [done | |].
  - assert (Hn : (1 <= n <= length ires)%nat).
    { apply find_range. rewrite Hf. by left. }
    rewrite randsample_scalar by lia. eexists. split; [done |].
    split; [by rewrite length_map, length_seq |].
    apply Forall_forall. intros i [a [-> _]]%list_elem_of_fmap.
    pose proof (randi_range n (u a)). lia.
  - destruct (randsample_vector (n :: m :: pop) k u) as (idx & Hr & Hl & Hall);
      [simpl; lia |].
    exists idx. split; [done |]. split; [done |].
    eapply Forall_impl; [exact Hall |]. simpl. intros i Hi.
    apply find_range. by rewrite Hf.
Qed.

Lemma index_row_Some (x : list dbl) (idx : list nat) :
  Forall (fun i => (1 <= i <= length x)%nat) idx ->
  exists l, index_row x idx = Some l /\ length l = length idx.
Proof.
  intros Hall. unfold index_row.
  assert (Hs : is_Some (mapM (index1 x) idx)).
  { apply mapM_is_Some_2. eapply Forall_impl; [exact Hall |].
    simpl. intros [|i] Hi; [lia |]. simpl. apply lookup_lt_is_Some. lia. }
  destruct Hs as [l Hl]. exists l. split; [done |].
  symmetry. by eapply length_mapM.
Qed.

(** The resampling step never fails, and returns [nsmp] values when a
    particle survives and a row of zeros of the old width otherwise. *)
Lemma resample_Some C d (x : list dbl) (ires : list bool) :
  length ires = length x ->
  exists x', resample C d x ires = Some x' /\
             length x' = if any ires then nsmp C else length x.
Proof.
  intros Hlen. unfold resample. destruct (any ires) eqn:Hany.
  - destruct (randsample_find ires (nsmp C) (ures d) Hany)
      as (idx & -> & Hl & Hall).
    simpl. rewrite Hlen in Hall.
    destruct (index_row_Some x idx Hall) as (l & -> & Hll).
    exists l. split; [done | lia].
  - eexists. split; [done |]. unfold fill. by rewrite length_replicate.
Qed.

Lemma resample_none C d (x : list dbl) (ires : list bool) :
  any ires = false -> resample C d x ires = Some (replicate (length x) (Fin 0)).
Proof. intros Hany. unfold resample. by rewrite Hany. Qed.

(** ** The loop body *)

Lemma trial_body_Some P C t d prev cur r :
  trial_body P C t d prev cur = Some r ->
  exists x,
    belief P t d prev cur = Some x /\
    set_rbef t prev cur = Some (rbef r) /\
    set_cbef C t prev cur = Some (cbef r) /\
    raft r = response P d x /\
    caft r = (if fitcnf C then confidence P d x (raft r) (rbef r)
              else caft cur) /\
    (if resamp C
     then resample C d x (survivors C t (raft r) (caft r)) = Some (xt r) /\
          psmp r = mean (survivors C t (raft r) (caft r))
     else xt r = x /\ psmp r = psmp cur).
Proof.
  unfold trial_body. intros Hb.
  destruct (set_rbef t prev cur) as [rb|]; [|done].
  destruct (set_cbef C t prev cur) as [cb|]; [|done].
  destruct (belief P t d prev cur) as [x|]; [|done].
  simpl in Hb. exists x. destruct (resamp C).
  - destruct (resample C d x _) as [x'|] eqn:Hres; [|done].
    simpl in Hb. injection Hb as <-. simpl. by rewrite Hres.
  - injection Hb as <-. simpl. done.
Qed.

Lemma length_set_rbef n t prev cur rb :
  row_wf n cur -> (forall rp, prev = Some rp -> row_wf n rp) ->
  set_rbef t prev cur = Some rb -> length rb = n.
Proof.
  intros Hc Hp. unfold set_rbef, fill. destruct (continues t).
  - destruct prev as [rp|]; [|done]. intros [= <-]. by apply (Hp rp).
  - intros [= <-]. rewrite length_replicate. apply Hc.
Qed.

Lemma length_set_cbef n C t prev cur cb :
  row_wf n cur -> (forall rp, prev = Some rp -> row_wf n rp) ->
  set_cbef C t prev cur = Some cb -> length cb = n.
Proof.
  intros Hc Hp. unfold set_cbef, fill. destruct (fitcnf C).
  - destruct (continues t).
    + destruct prev as [rp|]; [|done]. intros [= <-]. by apply (Hp rp).
    + intros [= <-]. rewrite length_replicate. apply Hc.
  - intros [= <-]. apply Hc.
Qed.

Lemma length_belief n P t d prev cur x :
  row_wf n cur -> (forall rp, prev = Some rp -> row_wf n rp) ->
  belief P t d prev cur = Some x -> length x = n.
Proof.
  intros Hc Hp. unfold belief, correct_belief. destruct (continues t).
  - destruct prev as [rp|]; [|done]. simpl. intros [= <-].
    rewrite length_accumulate, length_map. by apply (Hp rp).
  - simpl. intros [= <-]. rewrite length_accumulate. apply Hc.
Qed.

Lemma length_row_survivors n C t r :
  length (raft r) = n -> length (caft r) = n ->
  length (survivors C t (raft r) (caft r)) = n.
Proof. intros Hr Hc. rewrite length_survivors; congruence. Qed.

(** The loop body keeps the width of the rows. *)
Lemma trial_body_wf P C t d prev cur r :
  row_wf (nsmp C) cur ->
  (forall rp, prev = Some rp -> row_wf (nsmp C) rp) ->
  trial_body P C t d prev cur = Some r ->
  row_wf (nsmp C) r.
Proof.
  intros Hc Hp (x & Hx & Hrb & Hcb & Hr & Hca & Hre)%trial_body_Some.
  apply (length_belief _ _ _ _ _ _ _ Hc Hp) in Hx.
  apply (length_set_rbef _ _ _ _ _ Hc Hp) in Hrb.
  apply (length_set_cbef _ _ _ _ _ _ Hc Hp) in Hcb.
  assert (Hlr : length (raft r) = nsmp C)
    by (by rewrite Hr, length_response).
  assert (Hlc : length (caft r) = nsmp C).
  { rewrite Hca. destruct (fitcnf C); [|apply Hc].
    rewrite length_confidence; congruence. }
  assert (Hlx : length (xt r) = nsmp C).
  { destruct (resamp C); [|by destruct Hre as [-> _]].
    destruct Hre as [Hre _].
    destruct (resample_Some C d x (survivors C t (raft r) (caft r)))
      as (x' & Hx' & Hl);
      [rewrite (length_row_survivors (nsmp C)); congruence |].
    rewrite Hre in Hx'. injection Hx' as <-.
    destruct (any _); congruence. }
  done.
Qed.

(** The loop body fails only by reading the row before the first one. *)
Lemma trial_body_total P C t d prev cur :
  row_wf (nsmp C) cur ->
  (forall rp, prev = Some rp -> row_wf (nsmp C) rp) ->
  (continues t = true -> is_Some prev) ->
  is_Some (trial_body P C t d prev cur).
Proof.
  intros Hc Hp Hprev. unfold trial_body.
  destruct (set_rbef t prev cur) as [rb|] eqn:Hrb; cycle 1.
  { unfold set_rbef in Hrb. destruct (continues t); [|done].
    destruct Hprev as [rp ->]; done. }
  destruct (set_cbef C t prev cur) as [cb|] eqn:Hcb; cycle 1.
  { unfold set_cbef in Hcb. destruct (fitcnf C); [|done].
    destruct (continues t); [|done]. destruct Hprev as [rp ->]; done. }
  destruct (belief P t d prev cur) as [x|] eqn:Hx; cycle 1.
  { unfold belief, correct_belief in Hx. destruct (continues t); [|done].
    destruct Hprev as [rp ->]; done. }
  simpl. destruct (resamp C); [|done].
  apply (length_belief _ _ _ _ _ _ _ Hc Hp) in Hx.
  apply (length_set_rbef _ _ _ _ _ Hc Hp) in Hrb.
  set (c := if fitcnf C then _ else _).
  assert (Hlc : length c = length (response P d x)).
  { subst c. rewrite length_response. destruct (fitcnf C).
    - rewrite length_confidence; rewrite ?length_response; congruence.
    - destruct Hc as (_ & _ & _ & _ & ->). done. }
  destruct (resample_Some C d x (survivors C t (response P d x) c))
    as (x' & -> & _); [|done].
  by rewrite length_survivors, length_response.
Qed.

(** ** The loop *)

Lemma prev_row_insert (st : state) (k i : nat) (r : row) :
  (i <= k)%nat -> prev_row (<[k := r]> st) i = prev_row st i.
Proof.
  intros Hik. destruct i as [|m]; simpl; [done |].
  apply list_lookup_insert_ne. lia.
Qed.

Lemma prev_row_wf P C N (st : state) (k : nat) rp :
  loop_inv P C N k st -> prev_row st k = Some rp -> row_wf (nsmp C) rp.
Proof.
  intros (_ & Hrows & _) Hp. destruct k as [|m]; simpl in Hp; [done |].
  destruct (Hrows m) as (t & r & _ & Hr & Hwf & _); [lia |].
  congruence.
Qed.

Lemma init_inv P C N : loop_inv P C N 0 (init_state C).
Proof.
  unfold loop_inv, init_state. rewrite length_replicate.
  split; [done |]. split; [intros i Hi; lia |].
  intros i Hi. apply lookup_replicate_2. lia.
Qed.

Lemma iter_inv P C N (k : nat) (st st1 : state) :
  loop_inv P C N k st -> iter P C N k st = Some st1 ->
  loop_inv P C N (S k) st1.
Proof.
  intros Hinv Hit. pose proof Hinv as (Hlen & Hrows & Hinit).
  unfold iter in Hit.
  destruct (trials C !! k) as [t|] eqn:Ht; [|done]. simpl in Hit.
  assert (Hk : (k < nseq C)%nat) by (by apply lookup_lt_Some in Ht).
  rewrite (Hinit k) in Hit by lia. simpl in Hit.
  destruct (trial_body P C t (N k) (prev_row st k) (init_row (nsmp C)))
    as [r|] eqn:Hb; [|done].
  simpl in Hit. injection Hit as <-.
  split; [by rewrite length_insert |]. split.
  - intros i Hi. destruct (decide (i = k)) as [->|Hne].
    + exists t, r. split; [done |].
      split; [apply list_lookup_insert_eq; lia |].
      split.
      * eapply trial_body_wf; [apply init_row_wf | | exact Hb].
        intros rp Hp. by eapply prev_row_wf.
      * by rewrite prev_row_insert.
    + destruct (Hrows i) as (t' & r' & Ht' & Hr' & Hwf & Hb'); [lia |].
      exists t', r'. split; [done |].
      split; [by rewrite list_lookup_insert_ne |].
      split; [done |]. rewrite prev_row_insert by lia. done.
  - intros i Hi. rewrite list_lookup_insert_ne by lia. apply Hinit. lia.
Qed.

Lemma iter_total P C N (k : nat) (st : state) :
  loop_inv P C N k st -> (k < nseq C)%nat -> well_started C = true ->
  is_Some (iter P C N k st).
Proof.
  intros Hinv Hk Hws. pose proof Hinv as (Hlen & Hrows & Hinit).
  unfold iter.
  destruct (lookup_lt_is_Some_2 (trials C) k Hk) as [t Ht].
  rewrite Ht. simpl. rewrite (Hinit k) by lia. simpl.
  destruct (trial_body_total P C t (N k) (prev_row st k)
              (init_row (nsmp C))) as [r ->]; [| | | done].
  - apply init_row_wf.
  - intros rp Hp. by eapply prev_row_wf.
  - intros Hcont. destruct k as [|m]; simpl.
    + unfold well_started in Hws. destruct (trials C) as [|t0 ts]; [done |].
      simpl in Ht. injection Ht as ->. by rewrite Hcont in Hws.
    + destruct (Hrows m) as (t' & r' & _ & -> & _); [lia | done].
Qed.

Lemma loop_seq_inv P C N (n : nat) :
  forall (k : nat) (st st' : state),
    loop_inv P C N k st -> loop P C N (seq k n) st = Some st' ->
    loop_inv P C N (k + n) st'.
Proof.
  induction n as [|n IH]; intros k st st' Hinv Hl; simpl in Hl.
  - injection Hl as <-. by rewrite Nat.add_0_r.
  - destruct (iter P C N k st) as [st1|] eqn:Hit; [|done]. simpl in Hl.
    replace (k + S n)%nat with (S k + n)%nat by lia.
    eapply IH; [|exact Hl]. by eapply iter_inv.
Qed.

Lemma loop_seq_total P C N (n : nat) :
  forall (k : nat) (st : state),
    loop_inv P C N k st -> (k + n <= nseq C)%nat -> well_started C = true ->
    is_Some (loop P C N (seq k n) st).
Proof.
  induction n as [|n IH]; intros k st Hinv Hk Hws; simpl; [done |].
  destruct (iter_total P C N k st Hinv) as [st1 Hit]; [lia | done |].
  rewrite Hit. simpl. apply IH; [by eapply iter_inv | lia | done].
Qed.

(** Every row of the arrays [sim_r] returns is the result of the loop body
    on the row before it. *)
Lemma sim_r_rows P C N (st : state) :
  sim_r P C N = Some st ->
  length st = nseq C /\ forall i, (i < nseq C)%nat -> row_ok P C N st i.
Proof.
  intros Hs. apply (loop_seq_inv P C N _ 0%nat (init_state C)) in Hs;
    [|apply init_inv].
  destruct Hs as (Hlen & Hrows & _). done.
Qed.

(** A run whose first sequence opens a block returns. *)
Lemma sim_r_total P C N :
  well_started C = true -> exists st, sim_r P C N = Some st.
Proof.
  intros Hws. apply (loop_seq_total P C N _ 0%nat); [apply init_inv | lia | done].
Qed.

(** A run that starts in the middle of a block stops in the first pass. *)
Lemma sim_r_not_started P C N :
  well_started C = false -> sim_r P C N = None.
Proof.
  unfold well_started.
  destruct (trials C) as [|t ts] eqn:Htr; [done |]. intros Hc.
  apply negb_false_iff in Hc.
  unfold sim_r, init_state, nseq. rewrite Htr. simpl.
  unfold iter. rewrite Htr. simpl.
  unfold trial_body, set_rbef. simpl. rewrite Hc. done.
Qed.

(** Access to the row of a sequence in a finished run. *)
Lemma sim_r_row P C N (st : state) (i : nat) (t : trial) :
  sim_r P C N = Some st -> trials C !! i = Some t ->
  exists r, st !! i = Some r /\ row_wf (nsmp C) r /\
    trial_body P C t (N i) (prev_row st i) (init_row (nsmp C)) = Some r.
Proof.
  intros [_ Hrows]%sim_r_rows Ht.
  destruct (Hrows i) as (t' & r & Ht' & Hr & Hwf & Hb);
    [by apply lookup_lt_Some in Ht |].
  exists r. rewrite Ht in Ht'. injection Ht' as <-. done.
Qed.

(** ** The belief update *)

Lemma inference_sd_finite P t (s : R) :
  sinf P = Fin s ->
  inference_sd P t = Fin (sqrt (INR (seqlen t)) * s).
Proof.
  intros Hs. unfold inference_sd, n2d, dsqrt. rewrite Hs.
  pose proof (pos_INR (seqlen t)). rdec. done.
Qed.

Lemma normrnd_finite (mu sd z : R) :
  (0 <= sd)%R -> normrnd (Fin mu) (Fin sd) z = Fin (mu + sd * z).
Proof.
  intros Hsd. unfold normrnd. simpl. rdec. simpl. apply Fin_eq. lra.
Qed.

(** C1, as the code has it.  For a finite previous log-belief [x] and a
    hazard rate [hr] strictly between 0 and 1, as long as no intermediate
    result overflows ([(1-hr)/hr + exp|x|] stays inside the range of doubles),
    [upfun] returns
    [x + ln((1-hr)/hr + exp(-x)) - ln((1-hr)/hr + exp(x))]; the loop body
    passes the belief of particle [j] through it when the sequence is not the
    first of its block, and otherwise takes the current row as it is. *)
Theorem hazard_correction_formula P t (rp cur : row) (j : nat) (x hr : R) :
  h P = Fin hr -> (0 < hr < 1)%R ->
  ((1 - hr) / hr + exp (Rabs x) < overflow_bound)%R ->
  xt rp !! j = Some (Fin x) ->
  let x' := (x + ln ((1 - hr) / hr + exp (- x))
               - ln ((1 - hr) / hr + exp x))%R in
  upfun (Fin x) (h P) = Fin x' /\
  correct_belief P t (Some rp) cur ≫= (.!! j)
  = if continues t then Some (Fin x') else xt cur !! j.
Proof.
  intros Hh Hr Hrange Hx x'. rewrite Hh. split; [by apply upfun_finite |].
  unfold correct_belief. destruct (continues t); simpl; [|done].
  rewrite list_lookup_fmap, Hx. simpl. rewrite Hh.
  by rewrite upfun_finite.
Qed.

(** C1, counterexample.  For the finite belief 1024 and the hazard rate 0.1,
    [exp(1024)] overflows and [upfun] returns -Inf, not the value of the
    formula. *)
Lemma hazard_correction_overflow :
  upfun (Fin 1024) (Fin (1 / 10)) = NInf /\
  upfun (Fin 1024) (Fin (1 / 10))
  <> Fin (1024 + ln ((1 - 1 / 10) / (1 / 10) + exp (- 1024))
               - ln ((1 - 1 / 10) / (1 / 10) + exp 1024)).
Proof.
  assert (Hinf : upfun (Fin 1024) (Fin (1 / 10)) = NInf).
  { apply upfun_overflow; [lra | | apply exp_1024_overflows].
    pose proof overflow_bound_large as Hl.
    assert (2 ^ 7 <= 2 ^ 64)%R by (apply Rle_pow; [lra | lia]). lra. }
  split; [done |]. by rewrite Hinf.
Qed.

(** C6. The evidence step adds to the post-correction log-belief [xj] of a
    particle the log-likelihood ratio [l] of the sequence and one deviate
    [zinf d j] scaled by [sd = sqrt(seqlen) * s]: the square of the scale is
    [seqlen * s^2], which differs from [(seqlen + 1) * s^2] unless [s = 0]. *)
Theorem evidence_accumulation_noise P t d prev cur (x : list dbl) (j : nat)
  (xj l s : R) :
  correct_belief P t prev cur = Some x -> x !! j = Some (Fin xj) ->
  seqllr t = Fin l -> sinf P = Fin s -> (0 <= s)%R ->
  let sd := (sqrt (INR (seqlen t)) * s)%R in
  inference_sd P t = Fin sd /\
  belief P t d prev cur ≫= (.!! j) = Some (Fin (xj + l + sd * zinf d j)) /\
  (sd * sd = INR (seqlen t) * (s * s))%R /\
  (s <> 0%R -> (sd * sd)%R <> ((INR (seqlen t) + 1) * (s * s))%R).
Proof.
  intros Hc Hx Hl Hs Hs0 sd.
  pose proof (pos_INR (seqlen t)) as Hn.
  pose proof (sqrt_pos (INR (seqlen t))) as Hq.
  assert (Hsq : (sd * sd = INR (seqlen t) * (s * s))%R).
  { subst sd.
    replace (sqrt (INR (seqlen t)) * s * (sqrt (INR (seqlen t)) * s))%R
      with (sqrt (INR (seqlen t)) * sqrt (INR (seqlen t)) * (s * s))%R by ring.
    by rewrite sqrt_sqrt. }
  split; [by apply inference_sd_finite |]. split; [|split; [done |]].
  - unfold belief. rewrite Hc. simpl.
    rewrite lookup_accumulate, Hx. simpl.
    rewrite Hl, (inference_sd_finite P t s Hs). simpl.
    rewrite normrnd_finite by (subst sd; nra). done.
  - intros Hne Heq. rewrite Hsq in Heq.
    assert (0 < s * s)%R by nra. nra.
Qed.

(** ** The survival weight *)

Lemma mean_finite (l : list bool) :
  (0 < length l)%nat -> mean l = Fin (INR (nnz l) / INR (length l)).
Proof.
  intros Hl. unfold mean, n2d. simpl.
  assert (0 < INR (length l))%R by (by apply lt_0_INR).
  rdec. done.
Qed.

Lemma mean_range (l : list bool) :
  (0 < length l)%nat -> (0 <= INR (nnz l) / INR (length l) <= 1)%R.
Proof.
  intros Hl.
  assert (Hp : (0 < INR (length l))%R) by (by apply lt_0_INR).
  pose proof (pos_INR (nnz l)) as Hn.
  pose proof (le_INR _ _ (nnz_le l)) as Hle.
  split.
  - apply Rmult_le_pos; [done |]. left. by apply Rinv_0_lt_compat.
  - apply (Rmult_le_reg_r (INR (length l))); [done |].
    unfold Rdiv. rewrite Rmult_assoc, Rinv_l by lra. lra.
Qed.

Lemma mean_one (l : list bool) :
  (0 < length l)%nat ->
  (INR (nnz l) / INR (length l))%R = 1%R <-> nnz l = length l.
Proof.
  intros Hl.
  assert (Hp : (0 < INR (length l))%R) by (by apply lt_0_INR).
  split.
  - intros Heq. apply INR_eq.
    apply (Rmult_eq_compat_r (INR (length l))) in Heq.
    unfold Rdiv in Heq. rewrite Rmult_assoc, Rinv_l in Heq by lra. lra.
  - intros ->. unfold Rdiv. apply Rinv_r. lra.
Qed.

Lemma mean_zero (l : list bool) :
  (0 < length l)%nat ->
  (INR (nnz l) / INR (length l))%R = 0%R <-> nnz l = 0%nat.
Proof.
  intros Hl.
  assert (Hp : (0 < INR (length l))%R) by (by apply lt_0_INR).
  split.
  - intros Heq. apply INR_eq.
    apply (Rmult_eq_compat_r (INR (length l))) in Heq.
    unfold Rdiv in Heq. rewrite Rmult_assoc, Rinv_l in Heq by lra.
    simpl. lra.
  - intros ->. simpl. unfold Rdiv. lra.
Qed.

Lemma all_true_lookup (l : list bool) :
  (forall j b, l !! j = Some b -> b = true)
  <-> (forall j, (j < length l)%nat -> l !! j = Some true).
Proof.
  split.
  - intros Hall j Hj. destruct (lookup_lt_is_Some_2 l j Hj) as [b Hb].
    by rewrite Hb, (Hall j b Hb).
  - intros Hall j b Hb. pose proof (lookup_lt_Some _ _ _ Hb) as Hj.
    rewrite (Hall j Hj) in Hb. by injection Hb.
Qed.

Lemma none_true_lookup (l : list bool) :
  any l = false <-> (forall j, (j < length l)%nat -> l !! j = Some false).
Proof.
  rewrite any_false. split.
  - intros Hall j Hj. destruct (lookup_lt_is_Some_2 l j Hj) as [[] Hb];
      [by destruct (Hall j) | done].
  - intros Hall j Hj. pose proof (lookup_lt_Some _ _ _ Hj) as Hlt.
    rewrite (Hall j Hlt) in Hj. done.
Qed.

(** The rows of a finished run, with the survivors in closed form. *)
Lemma sim_r_survivors P C N (st : state) (i : nat) (t : trial) (r : row) :
  sim_r P C N = Some st -> trials C !! i = Some t -> st !! i = Some r ->
  row_wf (nsmp C) r /\
  survivors C t (raft r) (caft r)
  = zip_with (particle_matches C t) (raft r) (caft r) /\
  length (zip_with (particle_matches C t) (raft r) (caft r)) = nsmp C /\
  trial_body P C t (N i) (prev_row st i) (init_row (nsmp C)) = Some r.
Proof.
  intros Hs Ht Hr.
  destruct (sim_r_row P C N st i t Hs Ht) as (r' & Hr' & Hwf & Hb).
  rewrite Hr in Hr'. injection Hr' as <-.
  pose proof Hwf as (_ & _ & Hlr & _ & Hlc).
  split; [done |]. rewrite survivors_zip by congruence.
  split; [done |]. split; [|done].
  rewrite length_zip_with. lia.
Qed.

(** C2. On a sequence of a conditioning run, the weight [psmp] is the number
    of particles whose response (and confidence, when it is fitted) agrees
    with the subject's, divided by the number of particles, where the
    responses are those computed from the belief before resampling; it lies
    between 0 and 1, is 1 exactly when all particles agree and 0 exactly when
    none does. *)
Theorem survival_weight_fraction P C N (st : state) (i : nat) (t : trial)
  (r : row) :
  sim_r P C N = Some st -> trials C !! i = Some t -> st !! i = Some r ->
  resamp C = true -> (0 < nsmp C)%nat ->
  exists (x : list dbl) (w : R),
    belief P t (N i) (prev_row st i) (init_row (nsmp C)) = Some x /\
    raft r = response P (N i) x /\
    let ires := zip_with (particle_matches C t) (raft r) (caft r) in
    psmp r = Fin w /\
    w = (INR (nnz ires) / INR (nsmp C))%R /\
    (0 <= w <= 1)%R /\
    (w = 1%R <-> forall j, (j < nsmp C)%nat -> ires !! j = Some true) /\
    (w = 0%R <-> forall j, (j < nsmp C)%nat -> ires !! j = Some false).
Proof.
  intros Hs Ht Hr Hres Hn.
  destruct (sim_r_survivors P C N st i t r Hs Ht Hr)
    as (Hwf & Hsurv & Hlen & Hb).
  apply trial_body_Some in Hb as (x & Hx & _ & _ & Hraft & _ & Hre).
  rewrite Hres, Hsurv in Hre. destruct Hre as [_ Hw].
  set (ires := zip_with (particle_matches C t) (raft r) (caft r)) in *.
  assert (Hl : (0 < length ires)%nat) by lia.
  exists x, (INR (nnz ires) / INR (nsmp C))%R.
  split; [done |]. split; [done |]. simpl.
  split; [by rewrite Hw, mean_finite, Hlen |]. split; [done |].
  rewrite <- Hlen. split; [by apply mean_range |]. split.
  - by rewrite mean_one, nnz_full, all_true_lookup.
  - by rewrite mean_zero, nnz_zero, none_true_lookup.
Qed.

(** ** The degenerate case of the resampler *)

(** C3. In a conditioning run whose first sequence opens a block, [sim_r]
    returns arrays with a row for every sequence, each row computed by the
    loop body from the row before it; and on every sequence where no particle
    agrees with the subject the log-belief of every particle is 0 and the
    weight is 0. *)
Theorem no_survivor_reset P C N :
  well_started C = true -> resamp C = true -> (0 < nsmp C)%nat ->
  exists st : state,
    sim_r P C N = Some st /\ length st = nseq C /\
    (forall i, (i < nseq C)%nat -> row_ok P C N st i) /\
    forall (i : nat) (t : trial) (r : row),
      trials C !! i = Some t -> st !! i = Some r ->
      any (survivors C t (raft r) (caft r)) = false ->
      xt r = replicate (nsmp C) (Fin 0) /\ psmp r = Fin 0.
Proof.
  intros Hws Hres Hn.
  destruct (sim_r_total P C N Hws) as [st Hs]. exists st.
  destruct (sim_r_rows P C N st Hs) as [Hlen Hrows].
  split; [done |]. split; [done |]. split; [done |].
  intros i t r Ht Hr Hany.
  destruct (sim_r_survivors P C N st i t r Hs Ht Hr)
    as (Hwf & Hsurv & Hl & Hb).
  apply trial_body_Some in Hb as (x & Hx & _ & _ & Hraft & _ & Hre).
  rewrite Hres in Hre. destruct Hre as [Hxt Hw].
  rewrite (resample_none C (N i) x _ Hany) in Hxt. injection Hxt as Hxt.
  split.
  - rewrite <- Hxt. f_equal.
    destruct Hwf as (_ & _ & Hlr & _). rewrite Hraft in Hlr.
    by rewrite length_response in Hlr.
  - rewrite Hw, mean_finite; rewrite Hsurv in *; rewrite ?Hl; [|lia].
    apply nnz_zero in Hany. rewrite Hany. simpl.
    apply Fin_eq. unfold Rdiv. lra.
Qed.

(** ** The decision read-out *)

(** The belief before resampling and the read-out of one particle. *)
Lemma sim_r_particle P C N (st : state) (i : nat) (t : trial) (r : row)
  (j : nat) :
  sim_r P C N = Some st -> trials C !! i = Some t -> st !! i = Some r ->
  (j < nsmp C)%nat ->
  exists (x : list dbl) (xj rbj : dbl),
    belief P t (N i) (prev_row st i) (init_row (nsmp C)) = Some x /\
    x !! j = Some xj /\ rbef r !! j = Some rbj /\
    raft r !! j = Some (respond (normrnd xj (ssel P) (zsel (N i) j))) /\
    caft r !! j
    = Some (if fitcnf C
            then judge P (normrnd
                   (gain P (favor xj (respond (normrnd xj (ssel P)
                                                (zsel (N i) j))))
                           (dne (respond (normrnd xj (ssel P) (zsel (N i) j)))
                                rbj))
                   (scnf P) (zcnf (N i) j))
            else NaN).
Proof.
  intros Hs Ht Hr Hj.
  destruct (sim_r_survivors P C N st i t r Hs Ht Hr) as (Hwf & _ & _ & Hb).
  destruct Hwf as (_ & Hlrb & Hlr & _ & _).
  apply trial_body_Some in Hb as (x & Hx & _ & _ & Hraft & Hcaft & _).
  assert (Hlx : length x = nsmp C)
    by (by rewrite Hraft, length_response in Hlr).
  destruct (lookup_lt_is_Some_2 x j) as [xj Hxj]; [lia |].
  destruct (lookup_lt_is_Some_2 (rbef r) j) as [rbj Hrbj]; [lia |].
  exists x, xj, rbj.
  assert (Hrj : raft r !! j
                = Some (respond (normrnd xj (ssel P) (zsel (N i) j))))
    by (by rewrite Hraft, lookup_response, Hxj).
  repeat (split; [done |]).
  rewrite Hcaft. destruct (fitcnf C).
  - by apply lookup_confidence.
  - simpl. apply lookup_replicate_2. done.
Qed.

(** C5. For particle [j] of any sequence of a run: with [xj] its log-belief
    after the evidence step and [xr] that belief with selection noise, the
    response is 2 if [xr < 0] and 1 otherwise; and when confidence is fitted,
    with [xc = xj * (3 - 2 * response)], multiplied by [gcnf] exactly when the
    response differs from the response before the sequence, and with
    confidence noise added, the confidence is 2 if the result is greater than
    [tcnf] and 1 otherwise. *)
Theorem readout_rule P C N (st : state) (i : nat) (t : trial) (r : row)
  (j : nat) :
  sim_r P C N = Some st -> trials C !! i = Some t -> st !! i = Some r ->
  (j < nsmp C)%nat ->
  exists (x : list dbl) (xj rbj : dbl),
    belief P t (N i) (prev_row st i) (init_row (nsmp C)) = Some x /\
    x !! j = Some xj /\ rbef r !! j = Some rbj /\
    let xr := (Fin (zsel (N i) j)
               * (if dlt (ssel P) (Fin 0) then NaN else ssel P) + xj)%D in
    let rj := if dlt xr (Fin 0) then Fin 2 else Fin 1 in
    raft r !! j = Some rj /\
    (fitcnf C = true ->
     let xc := (xj * (Fin 3 - Fin 2 * rj))%D in
     let xc := if dne rj rbj then (xc * gcnf P)%D else xc in
     let xc := (Fin (zcnf (N i) j)
                * (if dlt (scnf P) (Fin 0) then NaN else scnf P) + xc)%D in
     caft r !! j = Some (if dgt xc (tcnf P) then Fin 2 else Fin 1)).
Proof.
  intros Hs Ht Hr Hj.
  destruct (sim_r_particle P C N st i t r j Hs Ht Hr Hj)
    as (x & xj & rbj & Hx & Hxj & Hrbj & Hraft & Hcaft).
  exists x, xj, rbj. repeat (split; [done |]).
  rewrite respond_cases in Hraft, Hcaft. split; [done |].
  intros Hfit. rewrite Hfit, judge_cases in Hcaft. done.
Qed.

(** C8. In every row of a run and for every particle, the response is 1 or
    2; the confidence is 1 or 2 when confidence is fitted, and is not
    produced (it stays NaN) otherwise. *)
Theorem response_confidence_range P C N (st : state) (i : nat) (r : row)
  (j : nat) :
  sim_r P C N = Some st -> st !! i = Some r -> (j < nsmp C)%nat ->
  (raft r !! j = Some (Fin 1) \/ raft r !! j = Some (Fin 2)) /\
  (if fitcnf C
   then caft r !! j = Some (Fin 1) \/ caft r !! j = Some (Fin 2)
   else caft r !! j = Some NaN).
Proof.
  intros Hs Hr Hj.
  pose proof (sim_r_rows P C N st Hs) as [Hlen _].
  destruct (lookup_lt_is_Some_2 (trials C) i) as [t Ht].
  { fold (nseq C). rewrite <- Hlen. by eapply lookup_lt_Some. }
  destruct (sim_r_particle P C N st i t r j Hs Ht Hr Hj)
    as (x & xj & rbj & _ & _ & _ & Hraft & Hcaft).
  rewrite respond_cases in Hraft.
  split.
  - rewrite Hraft. destruct (dlt _ _); auto.
  - rewrite Hcaft. destruct (fitcnf C); [|done].
    rewrite judge_cases. destruct (dgt _ _); auto.
Qed.

(** ** Block starts *)

(** C7. On a sequence that is the first of its block, the belief entering the
    evidence step is the untouched row of zeros (no hazard correction), and
    the response before the sequence is the subject's [cfg.rbef], as is the
    confidence before the sequence ([cfg.cbef]) when confidence is fitted; on
    any other sequence the belief entering the evidence step is [upfun] of the
    previous row, and the response and confidence before the sequence are the
    previous row's response and confidence. *)
Theorem block_start_seeding P C N (st : state) (i : nat) (t : trial)
  (r : row) :
  sim_r P C N = Some st -> trials C !! i = Some t -> st !! i = Some r ->
  if continues t then
    exists rp : row,
      prev_row st i = Some rp /\
      correct_belief P t (prev_row st i) (init_row (nsmp C))
      = Some (map (fun x => upfun x (h P)) (xt rp)) /\
      rbef r = raft rp /\
      cbef r = (if fitcnf C then caft rp else replicate (nsmp C) NaN)
  else
    correct_belief P t (prev_row st i) (init_row (nsmp C))
    = Some (replicate (nsmp C) (Fin 0)) /\
    rbef r = replicate (nsmp C) (cfg_rbef t) /\
    cbef r = replicate (nsmp C) (if fitcnf C then cfg_cbef t else NaN).
Proof.
  intros Hs Ht Hr.
  destruct (sim_r_survivors P C N st i t r Hs Ht Hr) as (_ & _ & _ & Hb).
  apply trial_body_Some in Hb as (x & _ & Hrb & Hcb & _).
  unfold set_rbef, set_cbef, correct_belief, fill in *.
  destruct (continues t).
  - destruct (prev_row st i) as [rp|]; [|done]. exists rp.
    simpl in *. injection Hrb as <-.
    destruct (fitcnf C); by injection Hcb as <-.
  - simpl in *. rewrite length_replicate in *. injection Hrb as <-.
    destruct (fitcnf C); by injection Hcb as <-.
Qed.

(** ** Forward simulation *)

(** C10. Without resampling every entry of [psmp] is 1 when [sim_r]
    returns. *)
Theorem forward_weights_one P C N (st : state) :
  resamp C = false -> sim_r P C N = Some st ->
  psmp <$> st = replicate (nseq C) (Fin 1).
Proof.
  intros Hres Hs.
  pose proof (sim_r_rows P C N st Hs) as [Hlen Hrows].
  apply list_eq. intros i. rewrite list_lookup_fmap.
  destruct (decide (i < nseq C)%nat) as [Hi|Hi].
  - destruct (Hrows i Hi) as (t & r & _ & Hr & _ & Hb).
    apply trial_body_Some in Hb as (x & _ & _ & _ & _ & _ & Hre).
    rewrite Hres in Hre. destruct Hre as [_ Hw].
    rewrite Hr, lookup_replicate_2 by done. simpl. by rewrite Hw.
  - rewrite lookup_ge_None_2 by lia. simpl. symmetry.
    apply lookup_replicate_None. lia.
Qed.

(** ** Zero noise and a hazard rate of zero *)

Lemma respond_h0_belief (t : trial) : respond (h0_belief t) = h0_response t.
Proof.
  unfold h0_belief, h0_response. rewrite respond_cases.
  destruct (continues t); [done |]. unfold sign_classifier.
  destruct (seqllr t) as [l| | |]; simpl; try done.
  destruct (Rlt_dec (0 + l) 0), (Rlt_dec l 0); try done; lra.
Qed.

Lemma map_upfun_h0 (x : list dbl) :
  map (fun xj => upfun xj (Fin 0)) x = replicate (length x) NaN.
Proof.
  induction x as [|xj x IH]; simpl; [done |]. by rewrite upfun_h0, IH.
Qed.

Lemma vnormrnd_zero (n : nat) (v : dbl) (z : nat -> R) :
  vnormrnd (replicate n v) (Fin 0) z = replicate n v.
Proof.
  apply list_eq. intros j. rewrite lookup_vnormrnd.
  destruct (decide (j < n)%nat) as [Hj|Hj].
  - rewrite lookup_replicate_2 by done. simpl. by rewrite normrnd_zero.
  - by rewrite (proj1 (lookup_replicate_None n v j)) by lia.
Qed.

Lemma map_replicate {A B : Type} (f : A -> B) (n : nat) (v : A) :
  map f (replicate n v) = replicate n (f v).
Proof. induction n as [|n IH]; simpl; [done | by rewrite IH]. Qed.

Lemma zip_with_replicate_same {A B D : Type} (f : A -> B -> D) (n : nat)
  (a : A) (b : B) :
  zip_with f (replicate n a) (replicate n b) = replicate n (f a b).
Proof. induction n as [|n IH]; simpl; [done | by rewrite IH]. Qed.

Lemma accumulate_h0 P t d (n : nat) (v : dbl) :
  sinf P = Fin 0 ->
  accumulate P t d (replicate n v) = replicate n (v + seqllr t)%D.
Proof.
  intros Hs. unfold accumulate.
  rewrite (inference_sd_finite P t 0 Hs), Rmult_0_r, map_replicate.
  apply vnormrnd_zero.
Qed.

Lemma belief_h0 P t d prev (n : nat) :
  sinf P = Fin 0 -> h P = Fin 0 ->
  (forall rp, prev = Some rp -> row_wf n rp) ->
  belief P t d prev (init_row n)
  = if continues t then (fun _ => replicate n (h0_belief t)) <$> prev
    else Some (replicate n (h0_belief t)).
Proof.
  intros Hs Hh Hp. unfold belief, correct_belief, h0_belief.
  destruct (continues t).
  - destruct prev as [rp|]; [|done]. simpl.
    destruct (Hp rp eq_refl) as (Hl & _).
    by rewrite Hh, map_upfun_h0, Hl, accumulate_h0.
  - simpl. by rewrite accumulate_h0.
Qed.

Lemma response_h0 P d t (n : nat) :
  ssel P = Fin 0 ->
  response P d (replicate n (h0_belief t)) = replicate n (h0_response t).
Proof.
  intros Hs. unfold response.
  by rewrite Hs, vnormrnd_zero, map_replicate, respond_h0_belief.
Qed.

Lemma gain_NaN P (swi : bool) : gain P NaN swi = NaN.
Proof. by destruct swi. Qed.

Lemma confidence_h0 P d t (n : nat) (rb : list dbl) :
  scnf P = Fin 0 -> length rb = n ->
  (continues t = false -> rb = replicate n (cfg_rbef t)) ->
  confidence P d (replicate n (h0_belief t)) (replicate n (h0_response t)) rb
  = replicate n (h0_confidence P t).
Proof.
  intros Hs Hl Hrb. unfold confidence, h0_confidence.
  rewrite Hs, zip_with_replicate_same.
  destruct (continues t) eqn:Hc.
  - assert (Hb : h0_belief t = NaN) by (unfold h0_belief; by rewrite Hc).
    rewrite Hb. simpl.
    assert (Hz : zip_with (gain P) (replicate n NaN)
                   (zip_with dne (replicate n (h0_response t)) rb)
                 = replicate n NaN).
    { apply list_eq. intros j. rewrite !lookup_zip_with.
      destruct (decide (j < n)%nat) as [Hj|Hj].
      - rewrite !lookup_replicate_2 by done. simpl.
        destruct (lookup_lt_is_Some_2 rb j) as [rbj ->]; [lia |].
        simpl. by rewrite gain_NaN.
      - by rewrite !(proj1 (lookup_replicate_None n _ j)) by lia. }
    rewrite Hz, vnormrnd_zero, map_replicate. done.
  - rewrite (Hrb eq_refl), !zip_with_replicate_same, vnormrnd_zero,
      map_replicate. done.
Qed.

Lemma index_row_replicate (n : nat) (v : dbl) (idx : list nat) :
  Forall (fun i => (1 <= i <= n)%nat) idx ->
  index_row (replicate n v) idx = Some (replicate (length idx) v).
Proof.
  intros Hall. unfold index_row. apply mapM_Some_2.
  induction Hall as [|i idx Hi _ IH]; simpl; constructor; [|done].
  destruct i as [|i']; [lia |]. simpl. apply lookup_replicate_2. lia.
Qed.

Lemma any_replicate (n : nat) (m : bool) :
  any (replicate n m) = m && negb (n =? 0)%nat.
Proof.
  unfold any. destruct n as [|n]; simpl; [by rewrite andb_false_r |].
  destruct m; simpl; [done |].
  induction n as [|n IH]; simpl; done.
Qed.

Lemma resample_constant C d (v : dbl) (m : bool) :
  resample C d (replicate (nsmp C) v) (replicate (nsmp C) m)
  = Some (replicate (nsmp C) (if negb m then Fin 0 else v)).
Proof.
  unfold resample. destruct (any (replicate (nsmp C) m)) eqn:Hany.
  - destruct (randsample_find _ (nsmp C) (ures d) Hany)
      as (idx & -> & Hl & Hall).
    simpl. rewrite length_replicate in Hall.
    rewrite index_row_replicate, Hl by done.
    rewrite any_replicate in Hany. by destruct m.
  - unfold fill. rewrite length_replicate.
    rewrite any_replicate in Hany. destruct m; simpl in *; [|done].
    apply negb_false_iff, Nat.eqb_eq in Hany. by rewrite Hany.
Qed.

(** With zero noise and [h = 0] the loop body does not use its draws. *)
Lemma trial_body_h0 P C t d prev :
  noiseless P -> h P = Fin 0 ->
  (forall rp, prev = Some rp -> row_wf (nsmp C) rp) ->
  trial_body P C t d prev (init_row (nsmp C))
  = rb ← set_rbef t prev (init_row (nsmp C));
    cb ← set_cbef C t prev (init_row (nsmp C));
    Some (h0_row P C t rb cb).
Proof.
  intros (Hsi & Hss & Hsc) Hh Hp. unfold trial_body.
  destruct (set_rbef t prev (init_row (nsmp C))) as [rb|] eqn:Hrb; [|done].
  destruct (set_cbef C t prev (init_row (nsmp C))) as [cb|] eqn:Hcb;
    [|done].
  simpl. rewrite (belief_h0 P t d prev (nsmp C) Hsi Hh Hp).
  assert (Hl : length rb = nsmp C).
  { eapply length_set_rbef; [apply init_row_wf | exact Hp | exact Hrb]. }
  assert (Hrb' : continues t = false -> rb = replicate (nsmp C) (cfg_rbef t)).
  { intros Hc. unfold set_rbef, fill in Hrb. rewrite Hc in Hrb. simpl in Hrb.
    rewrite length_replicate in Hrb. by injection Hrb. }
  assert (Hx : (if continues t
                then (fun _ => replicate (nsmp C) (h0_belief t)) <$> prev
                else Some (replicate (nsmp C) (h0_belief t)))
               = Some (replicate (nsmp C) (h0_belief t))).
  { destruct (continues t) eqn:Hc; [|done]. unfold set_rbef in Hrb.
    rewrite Hc in Hrb. destruct prev; done. }
  rewrite Hx. simpl. rewrite (response_h0 P d t (nsmp C) Hss).
  rewrite (confidence_h0 P d t (nsmp C) rb Hsc Hl Hrb').
  unfold h0_row.
  set (cc := if fitcnf C then h0_confidence P t else NaN).
  assert (Hc : (if fitcnf C then replicate (nsmp C) (h0_confidence P t)
                else replicate (nsmp C) NaN) = replicate (nsmp C) cc)
    by (subst cc; by destruct (fitcnf C)).
  rewrite Hc. destruct (resamp C); simpl; [|done].
  rewrite survivors_zip by (by rewrite !length_replicate).
  rewrite zip_with_replicate_same, resample_constant. done.
Qed.

Lemma iter_h0_indep P C N N' (k : nat) (st : state) :
  noiseless P -> h P = Fin 0 -> loop_inv P C N k st ->
  iter P C N k st = iter P C N' k st.
Proof.
  intros Hn Hh Hinv. pose proof Hinv as (_ & _ & Hinit). unfold iter.
  destruct (trials C !! k) as [t|] eqn:Ht; [|done]. simpl.
  rewrite (Hinit k) by (by apply lookup_lt_Some in Ht). simpl.
  rewrite !trial_body_h0; try done.
  all: intros rp Hp; by eapply prev_row_wf.
Qed.

Lemma loop_h0_indep P C N N' (n : nat) :
  noiseless P -> h P = Fin 0 ->
  forall (k : nat) (st : state),
    loop_inv P C N k st -> loop_inv P C N' k st ->
    loop P C N (seq k n) st = loop P C N' (seq k n) st.
Proof.
  intros Hn Hh. induction n as [|n IH]; intros k st Hinv Hinv'; simpl;
    [done |].
  rewrite <- (iter_h0_indep P C N N' k st Hn Hh Hinv).
  destruct (iter P C N k st) as [st1|] eqn:Hit; [|done]. simpl.
  apply IH; [by eapply iter_inv |].
  eapply iter_inv; [exact Hinv' |].
  by rewrite <- (iter_h0_indep P C N N' k st Hn Hh Hinv).
Qed.

(** With zero noise and [h = 0] the result does not depend on the draws. *)
Lemma sim_r_h0_indep P C N N' :
  noiseless P -> h P = Fin 0 -> sim_r P C N = sim_r P C N'.
Proof.
  intros Hn Hh. apply loop_h0_indep; try done; apply init_inv.
Qed.

Lemma sim_r_prev_wf P C N (st : state) (i : nat) (rp : row) :
  sim_r P C N = Some st -> prev_row st i = Some rp -> row_wf (nsmp C) rp.
Proof.
  intros [Hlen Hrows]%sim_r_rows Hp.
  destruct i as [|m]; simpl in Hp; [done |].
  destruct (Hrows m) as (t & r & _ & Hr & Hwf & _).
  { rewrite <- Hlen. by eapply lookup_lt_Some. }
  congruence.
Qed.

Lemma sim_r_h0_row P C N (st : state) (i : nat) (t : trial) (r : row) :
  noiseless P -> h P = Fin 0 ->
  sim_r P C N = Some st -> trials C !! i = Some t -> st !! i = Some r ->
  r = h0_row P C t (rbef r) (cbef r).
Proof.
  intros Hn Hh Hs Ht Hr.
  destruct (sim_r_survivors P C N st i t r Hs Ht Hr) as (_ & _ & _ & Hb).
  rewrite trial_body_h0 in Hb; try done; cycle 1.
  { intros rp Hp. by eapply sim_r_prev_wf. }
  destruct (set_rbef _ _ _) as [rb|]; [|done].
  destruct (set_cbef _ _ _ _) as [cb|]; [|done].
  simpl in Hb. by injection Hb as <-.
Qed.

Lemma accumulated_block_start (ts : list trial) (acc : dbl) (i : nat)
  (t : trial) :
  ts !! i = Some t -> continues t = false ->
  accumulated ts acc !! i = Some (Fin 0 + seqllr t)%D.
Proof.
  revert acc i. induction ts as [|t0 ts IH]; intros acc i Ht Hc; [done |].
  destruct i as [|i]; simpl in *.
  - injection Ht as ->. by rewrite Hc.
  - by apply IH.
Qed.

Lemma sign_classifier_zero_plus (e : dbl) :
  sign_classifier (Fin 0 + e)%D = sign_classifier e.
Proof.
  unfold sign_classifier. destruct e as [l| | |]; simpl; try done.
  destruct (Rlt_dec (0 + l) 0), (Rlt_dec l 0); try done; lra.
Qed.

(** C9, as the code has it.  With zero noise and [h = 0] the result of
    [sim_r] is the same for all draws; on the first sequence of a block every
    particle answers as the sign-based classifier does on the evidence
    accumulated so far (1 when it is non-negative, 2 when it is negative); on
    every other sequence every particle answers 1. *)
Theorem zero_noise_h0_responses P C N (st : state) :
  noiseless P -> h P = Fin 0 -> sim_r P C N = Some st ->
  (forall N', sim_r P C N' = Some st) /\
  forall (i : nat) (t : trial) (r : row),
    trials C !! i = Some t -> st !! i = Some r ->
    if continues t then (raft r = replicate (nsmp C) (Fin 1))
    else (exists e : dbl,
            spec_responses (trials C) !! i = Some e /\
            e = sign_classifier (seqllr t) /\
            raft r = replicate (nsmp C) e).
Proof.
  intros Hn Hh Hs. split.
  { intros N'. by rewrite <- (sim_r_h0_indep P C N N' Hn Hh). }
  intros i t r Ht Hr.
  rewrite (sim_r_h0_row P C N st i t r Hn Hh Hs Ht Hr). simpl.
  unfold h0_response. destruct (continues t) eqn:Hc; [done |].
  exists (sign_classifier (seqllr t)). split; [|done].
  unfold spec_responses. rewrite list_lookup_fmap.
  rewrite (accumulated_block_start _ _ i t Ht Hc).
  by rewrite <- (sign_classifier_zero_plus (seqllr t)).
Qed.

(** The response of a particle read off a finite decision variable. *)
Lemma respond_neg (x : R) : (x < 0)%R -> respond (Fin x) = Fin 2.
Proof. intros Hx. rewrite respond_cases. simpl. rdec. done. Qed.

Lemma respond_nonneg (x : R) : (0 <= x)%R -> respond (Fin x) = Fin 1.
Proof. intros Hx. rewrite respond_cases. simpl. rdec. done. Qed.

Lemma sqrt_INR_4 : sqrt (INR 4) = 2%R.
Proof.
  replace (INR 4) with (2 * 2)%R by (simpl; lra).
  apply sqrt_square. lra.
Qed.

(** ** A single survivor *)

Lemma ex_lone_belief :
  belief ex_lone_params ex_lone_trial ex_lone_draws None (init_row 2)
  = Some [Fin (-5); Fin 1].
Proof.
  unfold belief, correct_belief, accumulate. simpl.
  rewrite (inference_sd_finite ex_lone_params _ 1 eq_refl). simpl seqlen.
  rewrite sqrt_INR_4. unfold vnormrnd. simpl.
  rewrite !normrnd_finite by lra.
  f_equal. f_equal; [|f_equal]; apply Fin_eq; lra.
Qed.

Lemma ex_lone_body :
  trial_body ex_lone_params ex_lone_setup ex_lone_trial ex_lone_draws None
    (init_row 2)
  = Some ex_lone_row.
Proof.
  unfold trial_body. rewrite ex_lone_belief. simpl.
  unfold response, vnormrnd. simpl. rewrite !normrnd_zero.
  rewrite respond_neg, respond_nonneg by lra.
  unfold survivors. simpl. rdec.
  simpl. unfold ex_lone_row. do 2 f_equal.
  rewrite mean_finite by (simpl; lia). apply Fin_eq. simpl. lra.
Qed.

Lemma ex_lone_run :
  sim_r ex_lone_params ex_lone_setup (fun _ => ex_lone_draws)
  = Some [ex_lone_row].
Proof.
  unfold sim_r, init_state, nseq. simpl. unfold iter. simpl.
  change (init_row 2) with (init_row (nsmp ex_lone_setup)) at 1.
  simpl nsmp. rewrite ex_lone_body. done.
Qed.

(** With two or more survivors, every value after resampling is the belief
    of a survivor. *)
Lemma resample_two_survivors C d (x x' : list dbl) (ires : list bool) :
  (2 <= nnz ires)%nat -> resample C d x ires = Some x' ->
  length x' = nsmp C /\ bootstrap_closed x ires x'.
Proof.
  intros Hn Hre. unfold resample, bootstrap_closed in *.
  assert (Hany : any ires = true).
  { apply not_false_iff_true. intros Hf%nnz_zero. lia. }
  rewrite Hany in Hre.
  destruct (randsample_vector (find ires) (nsmp C) (ures d))
    as (idx & Hidx & Hl & Hall).
  { unfold find. rewrite length_find_from. done. }
  rewrite Hidx in Hre. simpl in Hre. unfold index_row in Hre.
  split.
  - apply length_mapM in Hre. lia.
  - apply mapM_Some_1 in Hre. clear Hidx Hl.
    induction Hre as [|i v' idx x' Hi _ IH]; intros v Hv;
      [inversion Hv |].
    apply Forall_cons in Hall as [Hin Hall].
    apply elem_of_cons in Hv as [->|Hv]; [|by apply IH].
    apply elem_of_find in Hin as (j & -> & Hj). by exists j.
Qed.

(** With a single survivor, at position [n], the positions drawn are
    integers of [1..n]: survivor or not. *)
Lemma resample_lone_survivor C d (x : list dbl) (ires : list bool) (n : nat) :
  find ires = [n] ->
  resample C d x ires
  = index_row x (map (fun i => randi n (ures d i)) (seq 0 (nsmp C))).
Proof.
  intros Hf. unfold resample.
  assert (Hin : n ∈ find ires) by (rewrite Hf; by left).
  pose proof (find_range _ _ Hin) as Hn.
  apply elem_of_find in Hin as (j & _ & Hj).
  rewrite (proj2 (any_true ires)) by (by exists j).
  rewrite Hf, randsample_scalar by lia. done.
Qed.

(** C4, at the failing input.  Two particles hold the beliefs [-5] and [1]
    and answer 2 and 1; the subject answered 1, so only the second particle
    survives.  After resampling both particles hold [-5], the belief of the
    particle that did not survive: the resampled row is not closed under the
    survivors' beliefs. *)
Theorem lone_survivor_draws_outside :
  exists (st : state) (r : row),
    sim_r ex_lone_params ex_lone_setup (fun _ => ex_lone_draws) = Some st /\
    st !! 0%nat = Some r /\
    belief ex_lone_params ex_lone_trial ex_lone_draws (prev_row st 0)
      (init_row (nsmp ex_lone_setup)) = Some [Fin (-5); Fin 1] /\
    survivors ex_lone_setup ex_lone_trial (raft r) (caft r) = [false; true] /\
    find (survivors ex_lone_setup ex_lone_trial (raft r) (caft r)) = [2%nat] /\
    xt r = [Fin (-5); Fin (-5)] /\
    ~ bootstrap_closed [Fin (-5); Fin 1] [false; true] (xt r).
Proof.
  exists [ex_lone_row], ex_lone_row.
  split; [exact ex_lone_run |]. split; [done |].
  split; [exact ex_lone_belief |].
  assert (Hs : survivors ex_lone_setup ex_lone_trial (raft ex_lone_row)
                 (caft ex_lone_row) = [false; true]).
  { unfold survivors. simpl. rdec. done. }
  rewrite Hs. repeat (split; [done |]).
  intros Hclosed. destruct (Hclosed (Fin (-5))) as (j & Hj & Hv).
  { simpl. by left. }
  destruct j as [|[|j]]; simpl in Hj, Hv; try done.
  injection Hv as Hv. lra.
Qed.

(** ** The scenario of the specification *)

Lemma ex_quiet_accumulate (obs : dbl) (d : draws) :
  accumulate ex_quiet_params (ex_quiet_trial obs) d
    [Fin 0; Fin 0; Fin 0; Fin 0]
  = [Fin 2; Fin 2; Fin 2; Fin 2].
Proof.
  rewrite (accumulate_h0 ex_quiet_params _ d 4 (Fin 0)) by done. simpl.
  f_equal; [|f_equal; [|f_equal; [|f_equal]]]; apply Fin_eq; lra.
Qed.

Lemma ex_quiet_response (d : draws) :
  response ex_quiet_params d [Fin 2; Fin 2; Fin 2; Fin 2]
  = [Fin 1; Fin 1; Fin 1; Fin 1].
Proof.
  unfold response. simpl ssel.
  rewrite (vnormrnd_zero 4 (Fin 2)). simpl.
  rewrite respond_nonneg by lra. done.
Qed.

(** Observed response 1: every particle agrees, the weight is 1 and the
    beliefs stay at 2. *)
Example ex_quiet_agree (N : nat -> draws) :
  sim_r ex_quiet_params (ex_quiet_setup (Fin 1)) N
  = Some [ex_quiet_row (Fin 2) (Fin 1)].
Proof.
  assert (Hm : mean [true; true; true; true] = Fin 1).
  { rewrite mean_finite by (simpl; lia). apply Fin_eq. simpl. lra. }
  pose proof (resample_constant (ex_quiet_setup (Fin 1)) (N 0%nat) (Fin 2)
                true) as Hre.
  simpl in Hre.
  unfold sim_r, init_state, nseq. simpl. unfold iter. simpl.
  unfold trial_body. simpl.
  rewrite ex_quiet_accumulate, ex_quiet_response.
  unfold survivors. simpl. rdec.
  rewrite Hm, Hre. reflexivity.
Qed.

(** Observed response 2: no particle agrees, the weight is 0 and the beliefs
    are reset to 0. *)
Example ex_quiet_disagree (N : nat -> draws) :
  sim_r ex_quiet_params (ex_quiet_setup (Fin 2)) N
  = Some [ex_quiet_row (Fin 0) (Fin 0)].
Proof.
  assert (Hm : mean [false; false; false; false] = Fin 0).
  { rewrite mean_finite by (simpl; lia). apply Fin_eq. simpl. lra. }
  unfold sim_r, init_state, nseq. simpl. unfold iter. simpl.
  unfold trial_body. simpl.
  rewrite ex_quiet_accumulate, ex_quiet_response.
  unfold survivors. simpl. rdec.
  rewrite Hm. reflexivity.
Qed.

(** ** The sign-based classifier and [h = 0] *)

Lemma ex_h0_noiseless : noiseless ex_h0_params.
Proof. done. Qed.

(** C9, counterexample.  Zero noise, [h = 0], one particle and a block of two
    sequences with evidence [-1] each: the evidence accumulated at the second
    sequence is [-2] and the sign-based classifier answers 2, but the particle
    answers 1. *)
Lemma sign_classifier_counterexample :
  noiseless ex_h0_params /\ h ex_h0_params = Fin 0 /\
  accumulated (trials ex_h0_setup) (Fin 0) !! 1%nat = Some (Fin (-2)) /\
  spec_responses (trials ex_h0_setup) !! 1%nat = Some (Fin 2) /\
  exists (st : state) (r : row),
    sim_r ex_h0_params ex_h0_setup (fun _ => no_draws) = Some st /\
    st !! 1%nat = Some r /\ raft r = [Fin 1].
Proof.
  split; [done |]. split; [done |].
  assert (Ha : accumulated (trials ex_h0_setup) (Fin 0) !! 1%nat
               = Some (Fin (-2))).
  { simpl. f_equal. apply Fin_eq. lra. }
  split; [done |]. split.
  { unfold spec_responses. rewrite list_lookup_fmap, Ha. simpl.
    unfold sign_classifier. simpl. rdec. done. }
  destruct (sim_r_total ex_h0_params ex_h0_setup (fun _ => no_draws) eq_refl)
    as [st Hs].
  destruct (sim_r_row _ _ _ st 1%nat (ex_h0_trial 2) Hs eq_refl)
    as (r & Hr & _ & _).
  exists st, r. split; [done |]. split; [done |].
  by rewrite (sim_r_h0_row _ _ _ st 1%nat (ex_h0_trial 2) r
                ex_h0_noiseless eq_refl Hs eq_refl Hr).
Qed.

(** ** Instances *)

Lemma exp_2_in_range :
  ((1 - 1 / 10) / (1 / 10) + exp (Rabs 2) < overflow_bound)%R.
Proof.
  rewrite Rabs_right by lra.
  replace 2%R with (1 + 1)%R by lra. rewrite exp_plus.
  pose proof exp_le_3 as H3. pose proof (exp_pos 1) as Hp.
  pose proof overflow_bound_large as Hl.
  assert (exp 1 * exp 1 <= 9)%R by nra.
  assert (100 < 2 ^ 64)%R.
  { assert (2 ^ 7 <= 2 ^ 64)%R by (apply Rle_pow; [lra | lia]). lra. }
  lra.
Qed.

Lemma hazard_correction_formula_witness :
  upfun (Fin 2) (Fin (1 / 10))
  = Fin (2 + ln ((1 - 1 / 10) / (1 / 10) + exp (- 2))
           - ln ((1 - 1 / 10) / (1 / 10) + exp 2)) /\
  correct_belief ex_lone_params (ex_h0_trial 2)
    (Some (ex_quiet_row (Fin 2) (Fin 1))) (init_row 4) ≫= (.!! 0%nat)
  = Some (Fin (2 + ln ((1 - 1 / 10) / (1 / 10) + exp (- 2))
                 - ln ((1 - 1 / 10) / (1 / 10) + exp 2))).
Proof.
  apply (hazard_correction_formula ex_lone_params (ex_h0_trial 2)
           (ex_quiet_row (Fin 2) (Fin 1)) (init_row 4) 0%nat 2%R (1 / 10)%R).
  - reflexivity.
  - lra.
  - exact exp_2_in_range.
  - reflexivity.
Defined.

Lemma evidence_accumulation_noise_witness :
  belief ex_lone_params ex_lone_trial ex_lone_draws None (init_row 2)
    ≫= (.!! 0%nat)
  = Some (Fin (0 + 1 + sqrt (INR 4) * 1 * -3)) /\
  (sqrt (INR 4) * 1 * (sqrt (INR 4) * 1))%R
  <> ((INR 4 + 1) * (1 * 1))%R.
Proof.
  destruct (evidence_accumulation_noise ex_lone_params ex_lone_trial
              ex_lone_draws None (init_row 2) [Fin 0; Fin 0] 0%nat
              0%R 1%R 1%R) as (_ & Hb & _ & Hne).
  - reflexivity.
  - reflexivity.
  - reflexivity.
  - reflexivity.
  - lra.
  - split; [exact Hb |]. apply Hne. lra.
Defined.

Lemma survival_weight_fraction_witness :
  exists (x : list dbl) (w : R),
    belief ex_lone_params ex_lone_trial ex_lone_draws None (init_row 2)
    = Some x /\
    raft ex_lone_row = response ex_lone_params ex_lone_draws x /\
    psmp ex_lone_row = Fin w /\
    (0 <= w <= 1)%R.
Proof.
  destruct (survival_weight_fraction ex_lone_params ex_lone_setup
              (fun _ => ex_lone_draws) [ex_lone_row] 0%nat ex_lone_trial
              ex_lone_row)
    as (x & w & Hx & Hr & Hw & _ & Hrange & _).
  - exact ex_lone_run.
  - reflexivity.
  - reflexivity.
  - reflexivity.
  - simpl. lia.
  - exists x, w. auto.
Defined.

Lemma no_survivor_reset_witness :
  exists (st : state) (r : row),
    sim_r ex_quiet_params (ex_quiet_setup (Fin 2)) (fun _ => no_draws)
    = Some st /\
    st !! 0%nat = Some r /\
    xt r = replicate 4 (Fin 0) /\ psmp r = Fin 0.
Proof.
  destruct (no_survivor_reset ex_quiet_params (ex_quiet_setup (Fin 2))
              (fun _ => no_draws)) as (st & Hs & _ & _ & Hz).
  - reflexivity.
  - reflexivity.
  - simpl. lia.
  - exists st, (ex_quiet_row (Fin 0) (Fin 0)).
    assert (Hr : st !! 0%nat = Some (ex_quiet_row (Fin 0) (Fin 0))).
    { rewrite ex_quiet_disagree in Hs. by injection Hs as <-. }
    split; [exact Hs |]. split; [exact Hr |].
    apply (Hz 0%nat (ex_quiet_trial (Fin 2)) _ eq_refl Hr).
    unfold survivors. simpl. rdec; reflexivity.
Defined.

Lemma readout_rule_witness :
  exists (x : list dbl) (xj rbj : dbl),
    belief ex_lone_params ex_lone_trial ex_lone_draws None (init_row 2)
    = Some x /\
    x !! 0%nat = Some xj /\ rbef ex_lone_row !! 0%nat = Some rbj.
Proof.
  destruct (readout_rule ex_lone_params ex_lone_setup
              (fun _ => ex_lone_draws) [ex_lone_row] 0%nat ex_lone_trial
              ex_lone_row 0%nat)
    as (x & xj & rbj & Hx & Hxj & Hrbj & _).
  - exact ex_lone_run.
  - reflexivity.
  - reflexivity.
  - simpl. lia.
  - exists x, xj, rbj. auto.
Defined.

Lemma response_confidence_range_witness :
  (raft ex_lone_row !! 1%nat = Some (Fin 1)
   \/ raft ex_lone_row !! 1%nat = Some (Fin 2)) /\
  caft ex_lone_row !! 1%nat = Some NaN.
Proof.
  apply (response_confidence_range ex_lone_params ex_lone_setup
           (fun _ => ex_lone_draws) [ex_lone_row] 0%nat ex_lone_row 1%nat).
  - exact ex_lone_run.
  - reflexivity.
  - simpl. lia.
Defined.

Lemma block_start_seeding_witness :
  correct_belief ex_lone_params ex_lone_trial None (init_row 2)
  = Some [Fin 0; Fin 0] /\
  rbef ex_lone_row = [Fin 1; Fin 1] /\
  cbef ex_lone_row = [NaN; NaN].
Proof.
  apply (block_start_seeding ex_lone_params ex_lone_setup
           (fun _ => ex_lone_draws) [ex_lone_row] 0%nat ex_lone_trial
           ex_lone_row).
  - exact ex_lone_run.
  - reflexivity.
  - reflexivity.
Defined.

Lemma zero_noise_h0_responses_witness :
  exists st : state,
    sim_r ex_h0_params ex_h0_setup (fun _ => no_draws) = Some st /\
    forall N', sim_r ex_h0_params ex_h0_setup N' = Some st.
Proof.
  destruct (sim_r_total ex_h0_params ex_h0_setup (fun _ => no_draws)
              eq_refl) as [st Hs].
  exists st. split; [exact Hs |].
  apply (zero_noise_h0_responses ex_h0_params ex_h0_setup
           (fun _ => no_draws) st).
  - exact ex_h0_noiseless.
  - reflexivity.
  - exact Hs.
Defined.

Lemma forward_weights_one_witness :
  exists st : state,
    sim_r ex_h0_params ex_h0_setup (fun _ => no_draws) = Some st /\
    psmp <$> st = [Fin 1; Fin 1].
Proof.
  destruct (sim_r_total ex_h0_params ex_h0_setup (fun _ => no_draws)
              eq_refl) as [st Hs].
  exists st. split; [exact Hs |].
  apply (forward_weights_one ex_h0_params ex_h0_setup (fun _ => no_draws) st).
  - reflexivity.
  - exact Hs.
Defined.

(** * Further properties of [upfun] *)

(** X6. A belief that is not finite (an infinity or NaN) is corrected to NaN,
    whatever the hazard rate. *)
Theorem upfun_not_finite (hz : dbl) :
  upfun PInf hz = NaN /\ upfun NInf hz = NaN /\ upfun NaN hz = NaN.
Proof.
  unfold upfun. destruct hz as [hr| | |]; simpl; try done.
  unfold sgn. rdec; simpl; rdec; simpl; try done.
Qed.

(** * Further properties of [sim_r] *)

(** ** Failure and shape *)

(** X7. [sim_r] stops on an error exactly when the first sequence is not the
    first of a block ([seqind(1) > 1], where the loop body reads row 0); with
    no sequence at all it returns. *)
Theorem sim_r_fails_iff P C N :
  sim_r P C N = None <-> well_started C = false.
Proof.
  split.
  - intros Hnone. destruct (well_started C) eqn:Hws; [|done].
    destruct (sim_r_total P C N Hws) as [st Hs]. congruence.
  - apply sim_r_not_started.
Qed.

(** X8. The arrays [sim_r] returns have one row per sequence, and every row
    of [xt], [rbef], [raft], [cbef] and [caft] has [nsmp] entries: resampling
    keeps the size of the population. *)
Theorem sim_r_shape P C N (st : state) :
  sim_r P C N = Some st ->
  length st = nseq C /\
  forall (i : nat) (r : row), st !! i = Some r ->
    length (xt r) = nsmp C /\ length (rbef r) = nsmp C /\
    length (raft r) = nsmp C /\ length (cbef r) = nsmp C /\
    length (caft r) = nsmp C.
Proof.
  intros [Hlen Hrows]%sim_r_rows. split; [done |].
  intros i r Hr.
  destruct (Hrows i) as (t & r' & _ & Hr' & Hwf & _).
  { rewrite <- Hlen. by eapply lookup_lt_Some. }
  rewrite Hr in Hr'. injection Hr' as <-. exact Hwf.
Qed.

Lemma sim_r_shape_witness :
  length [ex_lone_row] = 1%nat /\ length (xt ex_lone_row) = 2%nat.
Proof.
  destruct (sim_r_shape ex_lone_params ex_lone_setup (fun _ => ex_lone_draws)
              [ex_lone_row] ex_lone_run) as [Hl Hrows].
  split; [exact Hl |].
  exact (proj1 (Hrows 0%nat ex_lone_row eq_refl)).
Defined.

(** ** Prefixes and blocks *)

Lemma sim_r_row_at P C N (st : state) (i : nat) (r : row) :
  sim_r P C N = Some st -> st !! i = Some r ->
  exists t, trials C !! i = Some t /\
    trial_body P C t (N i) (prev_row st i) (init_row (nsmp C)) = Some r.
Proof.
  intros Hs Hr. pose proof (sim_r_rows P C N st Hs) as [Hlen Hrows].
  destruct (Hrows i) as (t & r' & Ht & Hr' & _ & Hb).
  { rewrite <- Hlen. by eapply lookup_lt_Some. }
  exists t. split; [done |]. congruence.
Qed.

Lemma sim_r_started P C N (st : state) :
  sim_r P C N = Some st -> well_started C = true.
Proof.
  intros Hs. destruct (well_started C) eqn:Hws; [done |].
  rewrite sim_r_not_started in Hs; done.
Qed.

(** On the first sequence of a block the loop body does not look at the
    previous row. *)
Lemma trial_body_block_start P C t d prev cur :
  continues t = false ->
  trial_body P C t d prev cur = trial_body P C t d None cur.
Proof.
  intros Hc. unfold trial_body, set_rbef, set_cbef, belief, correct_belief.
  by rewrite Hc.
Qed.

(** X9. The rows of the first [k] sequences do not depend on the sequences
    after them: running [sim_r] on the first [k] sequences alone returns the
    first [k] rows of the full run. *)
Theorem sim_r_prefix P C N (st : state) (k : nat) :
  sim_r P C N = Some st ->
  sim_r P (with_trials C (take k (trials C))) N = Some (take k st).
Proof.
  intros Hs. set (C' := with_trials C (take k (trials C))).
  pose proof (sim_r_rows P C N st Hs) as [Hlen _].
  assert (Hws : well_started C' = true).
  { pose proof (sim_r_started P C N st Hs) as Hws.
    unfold well_started in *. simpl.
    destruct k as [|k]; [done |]. by destruct (trials C). }
  destruct (sim_r_total P C' N Hws) as [st' Hs'].
  pose proof (sim_r_rows P C' N st' Hs') as [Hlen' _].
  rewrite Hs'. f_equal. apply list_eq. intros i.
  induction i as [i IH] using lt_wf_ind.
  destruct (st' !! i) as [r'|] eqn:Hr'.
  - pose proof (lookup_lt_Some _ _ _ Hr') as Hi.
    rewrite Hlen' in Hi. unfold nseq in Hi. simpl in Hi.
    rewrite length_take in Hi.
    destruct (sim_r_row_at P C' N st' i r' Hs' Hr') as (t & Ht & Hb).
    simpl in Ht. rewrite lookup_take_lt in Ht by lia.
    destruct (sim_r_row P C N st i t Hs Ht) as (r & Hr & _ & Hb').
    rewrite lookup_take_lt, Hr by lia. f_equal.
    assert (Hp : prev_row st' i = prev_row st i).
    { destruct i as [|m]; [done |]. simpl.
      rewrite (IH m) by lia. apply lookup_take_lt. lia. }
    rewrite Hp in Hb. change (trial_body P C' t) with (trial_body P C t) in Hb.
    simpl in Hb. congruence.
  - symmetry. apply lookup_ge_None. apply lookup_ge_None in Hr'.
    rewrite Hlen' in Hr'. unfold nseq in Hr', Hlen. simpl in Hr'.
    rewrite length_take in Hr'. rewrite length_take. lia.
Qed.

Lemma sim_r_prefix_witness :
  sim_r ex_h0_params (with_trials ex_h0_setup (take 1 (trials ex_h0_setup)))
        (fun _ => no_draws)
  = take 1 <$> sim_r ex_h0_params ex_h0_setup (fun _ => no_draws).
Proof.
  destruct (sim_r_total ex_h0_params ex_h0_setup (fun _ => no_draws)
              eq_refl) as [st Hs].
  rewrite Hs. simpl.
  exact (sim_r_prefix ex_h0_params ex_h0_setup (fun _ => no_draws) st 1 Hs).
Defined.

(** X10. A block can be simulated on its own: when the sequences split into
    [l1 ++ l2] and [l2] starts with the first sequence of a block, running
    [sim_r] on [l2] alone, with the draws of those sequences, returns the rows
    the full run has for [l2]. *)
Theorem sim_r_block P C N (st : state) (l1 l2 : list trial) :
  trials C = l1 ++ l2 -> well_started (with_trials C l2) = true ->
  sim_r P C N = Some st ->
  sim_r P (with_trials C l2) (fun i => N (length l1 + i)%nat)
  = Some (drop (length l1) st).
Proof.
  intros Htr Hws Hs. set (C2 := with_trials C l2).
  set (N2 := fun i => N (length l1 + i)%nat).
  pose proof (sim_r_rows P C N st Hs) as [Hlen _].
  destruct (sim_r_total P C2 N2 Hws) as [st2 Hs2].
  pose proof (sim_r_rows P C2 N2 st2 Hs2) as [Hlen2 _].
  unfold nseq in Hlen, Hlen2. rewrite Htr, length_app in Hlen.
  simpl in Hlen2.
  rewrite Hs2. f_equal. apply list_eq. intros i.
  rewrite lookup_drop.
  induction i as [i IH] using lt_wf_ind.
  destruct (st2 !! i) as [r2|] eqn:Hr2.
  - pose proof (lookup_lt_Some _ _ _ Hr2) as Hi. rewrite Hlen2 in Hi.
    destruct (sim_r_row_at P C2 N2 st2 i r2 Hs2 Hr2) as (t & Ht & Hb).
    simpl in Ht.
    assert (Ht' : trials C !! (length l1 + i)%nat = Some t).
    { rewrite Htr, lookup_app_r by lia.
      by replace (length l1 + i - length l1)%nat with i by lia. }
    destruct (sim_r_row P C N st _ t Hs Ht') as (r & Hr & _ & Hb').
    rewrite Hr. f_equal.
    change (trial_body P C2 t) with (trial_body P C t) in Hb.
    simpl in Hb. unfold N2 in Hb.
    destruct i as [|m].
    + assert (Hc : continues t = false).
      { unfold well_started in Hws. simpl in Hws.
        destruct l2 as [|t0 l2]; [done |]. simpl in Ht.
        injection Ht as ->. by apply negb_true_iff in Hws. }
      rewrite trial_body_block_start in Hb, Hb' by done. congruence.
    + replace (length l1 + S m)%nat with (S (length l1 + m)) in * by lia.
      simpl in Hb, Hb'. rewrite (IH m) in Hb by lia. congruence.
  - symmetry. apply lookup_ge_None. apply lookup_ge_None in Hr2. lia.
Qed.

Lemma sim_r_block_witness :
  exists st : state,
    sim_r ex_h0_params
      (with_trials ex_h0_setup [ex_h0_trial 1; ex_h0_trial 1])
      (fun _ => no_draws) = Some st /\
    sim_r ex_h0_params (with_trials ex_h0_setup [ex_h0_trial 1])
      (fun _ => no_draws) = Some (drop 1 st).
Proof.
  destruct (sim_r_total ex_h0_params
              (with_trials ex_h0_setup [ex_h0_trial 1; ex_h0_trial 1])
              (fun _ => no_draws) eq_refl) as [st Hs].
  exists st. split; [exact Hs |].
  apply (sim_r_block ex_h0_params
           (with_trials ex_h0_setup [ex_h0_trial 1; ex_h0_trial 1])
           (fun _ => no_draws) st [ex_h0_trial 1] [ex_h0_trial 1]).
  - reflexivity.
  - reflexivity.
  - exact Hs.
Defined.

(** ** Particles in forward simulation *)

Lemma lookup_confidence_bind P d (x r rb : list dbl) (j : nat) :
  confidence P d x r rb !! j
  = xj ← x !! j; rj ← r !! j; rbj ← rb !! j;
    Some (judge P (normrnd (gain P (favor xj rj) (dne rj rbj))
                           (scnf P) (zcnf d j))).
Proof.
  unfold confidence.
  rewrite list_lookup_fmap, lookup_vnormrnd, !lookup_zip_with.
  destruct (x !! j) as [xj|]; [|done]. simpl.
  destruct (r !! j) as [rj|]; [|done]. simpl.
  destruct (rb !! j) as [rbj|]; done.
Qed.

(** Without resampling, particle [j] of the row the loop body writes is
    computed from particle [j] of the previous row and the deviates of
    particle [j]. *)
Lemma trial_body_particle P C t d d' prev prev' cur r r' (j : nat) :
  resamp C = false ->
  zinf d j = zinf d' j -> zsel d j = zsel d' j -> zcnf d j = zcnf d' j ->
  (forall rp rp', prev = Some rp -> prev' = Some rp' -> same_particle j rp rp') ->
  trial_body P C t d prev cur = Some r ->
  trial_body P C t d' prev' cur = Some r' ->
  same_particle j r r'.
Proof.
  intros Hres Hzi Hzs Hzc Hprev
    (x & Hx & Hrb & Hcb & Hr & Hc & Hre)%trial_body_Some
    (x' & Hx' & Hrb' & Hcb' & Hr' & Hc' & Hre')%trial_body_Some.
  rewrite Hres in Hre, Hre'. destruct Hre as [Hxt _], Hre' as [Hxt' _].
  unfold belief, correct_belief, set_rbef, set_cbef in *.
  assert (Hpart : x !! j = x' !! j /\ rbef r !! j = rbef r' !! j
                  /\ cbef r !! j = cbef r' !! j).
  { destruct (continues t).
    - destruct prev as [rp|]; [|done]. destruct prev' as [rp'|]; [|done].
      destruct (Hprev rp rp' eq_refl eq_refl) as (Hpx & _ & Hpr & _ & Hpc).
      simpl in *. injection Hx as <-. injection Hx' as <-.
      injection Hrb as <-. injection Hrb' as <-.
      split; [|split; [done |]].
      + rewrite !lookup_accumulate, !list_lookup_fmap, Hpx, Hzi. done.
      + destruct (fitcnf C); simpl in *; [|congruence].
        injection Hcb as <-. by injection Hcb' as <-.
    - simpl in *. injection Hx as <-. injection Hx' as <-.
      split; [|split; congruence].
      rewrite !lookup_accumulate, Hzi. done. }
  destruct Hpart as (Hxj & Hrbj & Hcbj).
  assert (Hrj : raft r !! j = raft r' !! j).
  { rewrite Hr, Hr', !lookup_response, Hxj, Hzs. done. }
  unfold same_particle. rewrite Hxt, Hxt'.
  repeat (split; [done |]).
  rewrite Hc, Hc'. destruct (fitcnf C); [|done].
  rewrite !lookup_confidence_bind, Hxj, Hrj, Hrbj, Hzc. done.
Qed.

(** X11. In forward simulation (no resampling) the particles do not
    interact: the belief, responses and confidences of particle [j] in every
    row are the same in two runs whose draws agree for particle [j], whatever
    the other particles draw. *)
Theorem forward_particles_independent P C N N' (st st' : state) (j : nat) :
  resamp C = false -> same_draws_at j N N' ->
  sim_r P C N = Some st -> sim_r P C N' = Some st' ->
  forall (i : nat) (r r' : row),
    st !! i = Some r -> st' !! i = Some r' -> same_particle j r r'.
Proof.
  intros Hres Hd Hs Hs' i.
  induction i as [i IH] using lt_wf_ind. intros r r' Hr Hr'.
  destruct (sim_r_row_at P C N st i r Hs Hr) as (t & Ht & Hb).
  destruct (sim_r_row_at P C N' st' i r' Hs' Hr') as (t' & Ht' & Hb').
  rewrite Ht in Ht'. injection Ht' as <-.
  destruct (Hd i) as (Hzi & Hzs & Hzc).
  apply (trial_body_particle P C t (N i) (N' i) (prev_row st i)
           (prev_row st' i) (init_row (nsmp C)) r r' j Hres Hzi Hzs Hzc);
    [|done |done].
  intros rp rp' Hp Hp'. destruct i as [|m]; [done |].
  simpl in Hp, Hp'. apply (IH m); [lia | done | done].
Qed.

Lemma forward_particles_independent_witness :
  exists st st' : state,
    sim_r ex_lone_params (mkSetup 2 false false [ex_h0_trial 1; ex_h0_trial 2])
      (fun _ => no_draws) = Some st /\
    sim_r ex_lone_params (mkSetup 2 false false [ex_h0_trial 1; ex_h0_trial 2])
      (fun _ => ex_lone_draws) = Some st' /\
    forall (i : nat) (r r' : row),
      st !! i = Some r -> st' !! i = Some r' -> same_particle 1 r r'.
Proof.
  destruct (sim_r_total ex_lone_params
              (mkSetup 2 false false [ex_h0_trial 1; ex_h0_trial 2])
              (fun _ => no_draws) eq_refl) as [st Hs].
  destruct (sim_r_total ex_lone_params
              (mkSetup 2 false false [ex_h0_trial 1; ex_h0_trial 2])
              (fun _ => ex_lone_draws) eq_refl) as [st' Hs'].
  exists st, st'. split; [exact Hs |]. split; [exact Hs' |].
  apply (forward_particles_independent ex_lone_params
           (mkSetup 2 false false [ex_h0_trial 1; ex_h0_trial 2])
           (fun _ => no_draws) (fun _ => ex_lone_draws) st st' 1%nat).
  - reflexivity.
  - intros i. repeat split; reflexivity.
  - exact Hs.
  - exact Hs'.
Defined.

(** ** Resampling in a run *)

Lemma sim_r_resampled P C N (st : state) (i : nat) (t : trial) (r : row) :
  sim_r P C N = Some st -> resamp C = true ->
  trials C !! i = Some t -> st !! i = Some r ->
  exists x : list dbl,
    belief P t (N i) (prev_row st i) (init_row (nsmp C)) = Some x /\
    length x = nsmp C /\
    resample C (N i) x (survivors C t (raft r) (caft r)) = Some (xt r).
Proof.
  intros Hs Hres Ht Hr.
  destruct (sim_r_survivors P C N st i t r Hs Ht Hr) as (Hwf & _ & _ & Hb).
  apply trial_body_Some in Hb as (x & Hx & _ & _ & Hraft & _ & Hre).
  rewrite Hres in Hre. exists x. split; [done |]. split; [|apply Hre].
  destruct Hwf as (_ & _ & Hlr & _). rewrite Hraft in Hlr.
  by rewrite length_response in Hlr.
Qed.

(** X12. In a conditioning run, on every sequence where two or more
    particles survive, every belief after resampling is the belief (before
    resampling) of a surviving particle. *)
Theorem resampling_closed_two_survivors P C N (st : state) (i : nat)
  (t : trial) (r : row) :
  sim_r P C N = Some st -> resamp C = true ->
  trials C !! i = Some t -> st !! i = Some r ->
  (2 <= nnz (survivors C t (raft r) (caft r)))%nat ->
  exists x : list dbl,
    belief P t (N i) (prev_row st i) (init_row (nsmp C)) = Some x /\
    bootstrap_closed x (survivors C t (raft r) (caft r)) (xt r).
Proof.
  intros Hs Hres Ht Hr Hn.
  destruct (sim_r_resampled P C N st i t r Hs Hres Ht Hr)
    as (x & Hx & _ & Hre).
  exists x. split; [done |].
  by destruct (resample_two_survivors C (N i) x (xt r) _ Hn Hre).
Qed.

Lemma resampling_closed_two_survivors_witness :
  exists x : list dbl,
    belief ex_quiet_params (ex_quiet_trial (Fin 1)) no_draws None (init_row 4)
    = Some x /\
    bootstrap_closed x [true; true; true; true] (replicate 4 (Fin 2)).
Proof.
  assert (Hsurv : survivors (ex_quiet_setup (Fin 1)) (ex_quiet_trial (Fin 1))
                    (raft (ex_quiet_row (Fin 2) (Fin 1)))
                    (caft (ex_quiet_row (Fin 2) (Fin 1)))
                  = [true; true; true; true]).
  { unfold survivors. simpl. rdec; reflexivity. }
  destruct (resampling_closed_two_survivors ex_quiet_params
              (ex_quiet_setup (Fin 1)) (fun _ => no_draws)
              [ex_quiet_row (Fin 2) (Fin 1)] 0%nat (ex_quiet_trial (Fin 1))
              (ex_quiet_row (Fin 2) (Fin 1)))
    as (x & Hx & Hcl).
  - apply ex_quiet_agree.
  - reflexivity.
  - reflexivity.
  - reflexivity.
  - rewrite Hsurv. simpl. lia.
  - exists x. split; [exact Hx |]. rewrite Hsurv in Hcl. exact Hcl.
Defined.

(** X13. In a conditioning run, on a sequence where exactly one particle
    survives, at position [n] (counted from 1), every belief after resampling
    is the belief (before resampling) of one of the particles at positions 1
    to [n]; when the survivor is the first particle, it is the survivor's. *)
Theorem resampling_lone_survivor_range P C N (st : state) (i : nat)
  (t : trial) (r : row) (n : nat) :
  sim_r P C N = Some st -> resamp C = true ->
  trials C !! i = Some t -> st !! i = Some r ->
  find (survivors C t (raft r) (caft r)) = [n] ->
  exists x : list dbl,
    belief P t (N i) (prev_row st i) (init_row (nsmp C)) = Some x /\
    length (xt r) = nsmp C /\
    (forall v, v ∈ xt r -> exists j, (j < n)%nat /\ x !! j = Some v) /\
    (n = 1%nat -> bootstrap_closed x (survivors C t (raft r) (caft r)) (xt r)).
Proof.
  intros Hs Hres Ht Hr Hf.
  destruct (sim_r_resampled P C N st i t r Hs Hres Ht Hr)
    as (x & Hx & Hlx & Hre).
  exists x. split; [done |].
  rewrite (resample_lone_survivor C (N i) x _ n Hf) in Hre.
  unfold index_row in Hre.
  pose proof (length_mapM _ _ _ Hre) as Hl.
  rewrite length_map, length_seq in Hl.
  split; [done |].
  assert (Hin : n ∈ find (survivors C t (raft r) (caft r)))
    by (rewrite Hf; by left).
  pose proof (find_range _ _ Hin) as Hn.
  assert (Hrange : forall v, v ∈ xt r ->
                     exists j, (j < n)%nat /\ x !! j = Some v).
  { intros v Hv. apply mapM_Some_1 in Hre.
    apply list_elem_of_lookup in Hv as [k Hk].
    destruct (Forall2_lookup_r _ _ _ _ _ Hre Hk) as (idx & Hidx & Hv).
    apply list_lookup_fmap_Some in Hidx as (a & -> & _).
    pose proof (randi_range n (ures (N i) a)) as Hra.
    destruct (randi n (ures (N i) a)) as [|j]; [done |].
    exists j. split; [lia | done]. }
  split; [done |].
  intros -> v Hv. destruct (Hrange v Hv) as (j & Hj & Hxj).
  exists j. split; [|done].
  apply elem_of_find in Hin as (j' & Hj' & Htrue).
  replace j with j' by lia. done.
Qed.

Lemma resampling_lone_survivor_range_witness :
  exists x : list dbl,
    belief ex_lone_params ex_lone_trial ex_lone_draws None (init_row 2)
    = Some x /\
    forall v, v ∈ xt ex_lone_row -> exists j, (j < 2)%nat /\ x !! j = Some v.
Proof.
  destruct (resampling_lone_survivor_range ex_lone_params ex_lone_setup
              (fun _ => ex_lone_draws) [ex_lone_row] 0%nat ex_lone_trial
              ex_lone_row 2%nat)
    as (x & Hx & _ & Hrange & _).
  - exact ex_lone_run.
  - reflexivity.
  - reflexivity.
  - reflexivity.
  - unfold survivors. simpl. rdec; reflexivity.
  - exists x. split; [exact Hx | exact Hrange].
Defined.

(** ** Zero noise *)

Lemma response_uniform P d (n : nat) (v : dbl) :
  ssel P = Fin 0 -> response P d (replicate n v) = replicate n (respond v).
Proof.
  intros Hs. unfold response. by rewrite Hs, vnormrnd_zero, map_replicate.
Qed.

Lemma confidence_uniform P d (n : nat) (v rr rb : dbl) :
  scnf P = Fin 0 ->
  confidence P d (replicate n v) (replicate n rr) (replicate n rb)
  = replicate n (judge P (gain P (favor v rr) (dne rr rb))).
Proof.
  intros Hs. unfold confidence.
  by rewrite Hs, !zip_with_replicate_same, vnormrnd_zero, map_replicate.
Qed.

Lemma mean_replicate (n : nat) (m : bool) :
  (0 < n)%nat -> mean (replicate n m) = if m then Fin 1 else Fin 0.
Proof.
  intros Hn. rewrite mean_finite by (by rewrite length_replicate).
  rewrite length_replicate. apply lt_0_INR in Hn.
  assert (Hnz : nnz (replicate n m) = if m then n else 0%nat).
  { clear Hn. induction n as [|n IH]; simpl; [by destruct m |].
    rewrite IH. by destruct m. }
  rewrite Hnz. destruct m; apply Fin_eq; simpl.
  - apply Rinv_r. lra.
  - unfold Rdiv. lra.
Qed.

(** What enters the loop body is uniform when the previous row is. *)
Lemma uniform_entry P C t prev (rbl cbl x0 : list dbl) :
  (forall rp, prev = Some rp -> uniform_row (nsmp C) rp) ->
  set_rbef t prev (init_row (nsmp C)) = Some rbl ->
  set_cbef C t prev (init_row (nsmp C)) = Some cbl ->
  correct_belief P t prev (init_row (nsmp C)) = Some x0 ->
  exists rb cb b0 : dbl,
    rbl = replicate (nsmp C) rb /\ cbl = replicate (nsmp C) cb /\
    x0 = replicate (nsmp C) b0.
Proof.
  intros Hp. unfold set_rbef, set_cbef, correct_belief, fill. simpl.
  rewrite !length_replicate. destruct (continues t).
  - destruct prev as [rp|]; [|done].
    destruct (Hp rp eq_refl) as (x & rb & rr & cb & cc & Hx & _ & Hr & _ & Hc).
    simpl. rewrite Hx, Hr, Hc, map_replicate.
    intros [= <-] Hcb [= <-]. exists rr.
    destruct (fitcnf C); injection Hcb as <-; eauto.
  - intros [= <-] Hcb [= <-]. exists (cfg_rbef t).
    destruct (fitcnf C); injection Hcb as <-; eauto.
Qed.

(** Without noise, a uniform entry gives the closed form [quiet_row],
    whatever the draws. *)
Lemma trial_body_quiet P C t d prev (rb cb b0 : dbl) :
  noiseless P ->
  set_rbef t prev (init_row (nsmp C)) = Some (replicate (nsmp C) rb) ->
  set_cbef C t prev (init_row (nsmp C)) = Some (replicate (nsmp C) cb) ->
  correct_belief P t prev (init_row (nsmp C)) = Some (replicate (nsmp C) b0) ->
  trial_body P C t d prev (init_row (nsmp C)) = Some (quiet_row P C t rb cb b0).
Proof.
  intros (Hsi & Hss & Hsc) Hrb Hcb Hx. unfold trial_body, belief.
  rewrite Hrb, Hcb, Hx. simpl.
  rewrite (accumulate_h0 P t d _ _ Hsi), (response_uniform P d _ _ Hss).
  rewrite (confidence_uniform P d _ _ _ _ Hsc). unfold quiet_row.
  set (b := (b0 + seqllr t)%D). set (rr := respond b).
  set (cc := if fitcnf C then _ else NaN).
  assert (Hc : (if fitcnf C
                then replicate (nsmp C)
                       (judge P (gain P (favor b rr) (dne rr rb)))
                else replicate (nsmp C) NaN) = replicate (nsmp C) cc)
    by (subst cc; by destruct (fitcnf C)).
  rewrite Hc. destruct (resamp C); simpl; [|done].
  rewrite survivors_zip by (by rewrite !length_replicate).
  rewrite zip_with_replicate_same, resample_constant. done.
Qed.

Lemma trial_body_quiet_row P C t d prev (r : row) :
  noiseless P ->
  (forall rp, prev = Some rp -> uniform_row (nsmp C) rp) ->
  trial_body P C t d prev (init_row (nsmp C)) = Some r ->
  exists rb cb b0 : dbl,
    r = quiet_row P C t rb cb b0 /\
    forall d', trial_body P C t d' prev (init_row (nsmp C)) = Some r.
Proof.
  intros Hn Hp Hb. pose proof Hb as Hb0.
  apply trial_body_Some in Hb as (x & Hx & Hrb & Hcb & _).
  unfold belief in Hx.
  destruct (correct_belief P t prev (init_row (nsmp C))) as [x0|] eqn:Hx0;
    [|done].
  destruct (uniform_entry P C t prev _ _ _ Hp Hrb Hcb Hx0)
    as (rb & cb & b0 & Hrb' & Hcb' & ->).
  rewrite Hrb' in Hrb. rewrite Hcb' in Hcb.
  exists rb, cb, b0.
  rewrite (trial_body_quiet P C t d prev rb cb b0 Hn Hrb Hcb Hx0) in Hb0.
  injection Hb0 as <-. split; [done |].
  intros d'. by apply trial_body_quiet.
Qed.

Lemma quiet_row_uniform P C t (rb cb b0 : dbl) :
  uniform_row (nsmp C) (quiet_row P C t rb cb b0).
Proof. unfold uniform_row, quiet_row. simpl. eauto 10. Qed.

Lemma sim_r_quiet_rows P C N (st : state) :
  noiseless P -> sim_r P C N = Some st ->
  forall (i : nat) (r : row), st !! i = Some r ->
    exists (t : trial) (rb cb b0 : dbl),
      trials C !! i = Some t /\ r = quiet_row P C t rb cb b0 /\
      forall d', trial_body P C t d' (prev_row st i) (init_row (nsmp C))
                 = Some r.
Proof.
  intros Hn Hs i. induction i as [i IH] using lt_wf_ind. intros r Hr.
  destruct (sim_r_row_at P C N st i r Hs Hr) as (t & Ht & Hb).
  destruct (trial_body_quiet_row P C t (N i) (prev_row st i) r Hn)
    as (rb & cb & b0 & Hq & Hd); [|done |by exists t, rb, cb, b0].
  intros rp Hp. destruct i as [|m]; [done |]. simpl in Hp.
  destruct (IH m (Nat.lt_succ_diag_r m) rp Hp) as (t' & rb & cb & b0 & _ & -> & _).
  apply quiet_row_uniform.
Qed.

(** X14. With zero noise ([sinf = ssel = scnf = 0]), for any hazard rate and
    with or without resampling: the result of [sim_r] is the same for all
    draws, in every row all particles hold the same belief, response and
    confidence, and the weight of a conditioning sequence is 0 or 1 (for a
    non-empty population). *)
Theorem zero_noise_degenerate P C N (st : state) :
  noiseless P -> sim_r P C N = Some st ->
  (forall N', sim_r P C N' = Some st) /\
  forall (i : nat) (r : row), st !! i = Some r ->
    uniform_row (nsmp C) r /\
    (resamp C = true -> (0 < nsmp C)%nat ->
     psmp r = Fin 0 \/ psmp r = Fin 1).
Proof.
  intros Hn Hs. pose proof (sim_r_quiet_rows P C N st Hn Hs) as Hq.
  split.
  - intros N'.
    destruct (sim_r_total P C N' (sim_r_started P C N st Hs)) as [st' Hs'].
    rewrite Hs'. f_equal.
    pose proof (sim_r_rows P C N st Hs) as [Hlen _].
    pose proof (sim_r_rows P C N' st' Hs') as [Hlen' _].
    apply list_eq. intros i. induction i as [i IH] using lt_wf_ind.
    destruct (st !! i) as [r|] eqn:Hr.
    + destruct (Hq i r Hr) as (t & _ & _ & _ & Ht & _ & Hd).
      destruct (sim_r_row P C N' st' i t Hs' Ht) as (r' & Hr' & _ & Hb').
      rewrite Hr'. f_equal.
      assert (Hp : prev_row st' i = prev_row st i).
      { destruct i as [|m]; [done |]. simpl. apply IH. lia. }
      rewrite Hp, Hd in Hb'. congruence.
    + apply lookup_ge_None. apply lookup_ge_None in Hr. lia.
  - intros i r Hr.
    destruct (Hq i r Hr) as (t & rb & cb & b0 & _ & -> & _).
    split; [apply quiet_row_uniform |].
    intros Hres Hpos. unfold quiet_row. simpl. rewrite Hres.
    rewrite mean_replicate by done. destruct (particle_matches _ _ _ _); auto.
Qed.

Lemma zero_noise_degenerate_witness :
  (forall N', sim_r ex_quiet_params (ex_quiet_setup (Fin 1)) N'
              = Some [ex_quiet_row (Fin 2) (Fin 1)]) /\
  uniform_row 4 (ex_quiet_row (Fin 2) (Fin 1)).
Proof.
  destruct (zero_noise_degenerate ex_quiet_params (ex_quiet_setup (Fin 1))
              (fun _ => no_draws) [ex_quiet_row (Fin 2) (Fin 1)])
    as [Hd Hrows].
  - done.
  - apply ex_quiet_agree.
  - split; [exact Hd |].
    exact (proj1 (Hrows 0%nat (ex_quiet_row (Fin 2) (Fin 1)) eq_refl)).
Defined.

(** ** Noise parameters at and below zero *)

Lemma normrnd_negative (mu : dbl) (s z : R) :
  (s < 0)%R -> normrnd mu (Fin s) z = NaN.
Proof. intros Hs. unfold normrnd. simpl. rdec. done. Qed.

Lemma normrnd_NaN (sigma : dbl) (z : R) : normrnd NaN sigma z = NaN.
Proof.
  unfold normrnd. destruct (Fin z * _)%D; done.
Qed.

Lemma respond_NaN : respond NaN = Fin 1.
Proof. by rewrite respond_cases. Qed.

(** A row of responses with the same value for every particle. *)
Lemma raft_all P C N (st : state) (i : nat) (t : trial) (r : row) (v : dbl) :
  sim_r P C N = Some st -> trials C !! i = Some t -> st !! i = Some r ->
  (forall j, (j < nsmp C)%nat -> raft r !! j = Some v) ->
  raft r = replicate (nsmp C) v.
Proof.
  intros Hs Ht Hr Hall.
  destruct (sim_r_survivors P C N st i t r Hs Ht Hr) as (Hwf & _).
  destruct Hwf as (_ & _ & Hl & _).
  apply list_eq. intros j. destruct (decide (j < nsmp C)%nat) as [Hj|Hj].
  - rewrite lookup_replicate_2 by done. by apply Hall.
  - rewrite lookup_ge_None_2 by lia. symmetry.
    apply lookup_replicate_None. lia.
Qed.

(** X15. A negative selection-noise parameter is not rejected: [normrnd]
    then returns NaN for every particle, the test [xr < 0] fails, and every
    response of the run is 1, whatever the evidence. *)
Theorem negative_selection_noise P C N (st : state) (s : R) :
  ssel P = Fin s -> (s < 0)%R -> sim_r P C N = Some st ->
  forall (i : nat) (r : row), st !! i = Some r ->
    raft r = replicate (nsmp C) (Fin 1).
Proof.
  intros Hss Hneg Hs i r Hr.
  destruct (sim_r_row_at P C N st i r Hs Hr) as (t & Ht & _).
  apply (raft_all P C N st i t r _ Hs Ht Hr). intros j Hj.
  destruct (sim_r_particle P C N st i t r j Hs Ht Hr Hj)
    as (x & xj & rbj & _ & _ & _ & Hraft & _).
  by rewrite Hraft, Hss, normrnd_negative, respond_NaN.
Qed.

Lemma negative_selection_noise_witness :
  exists st : state,
    sim_r (mkParams (Fin (1 / 10)) (Fin 0) (Fin (-1)) (Fin 0) (Fin 0) (Fin 1))
      ex_h0_setup (fun _ => no_draws) = Some st /\
    forall (i : nat) (r : row), st !! i = Some r -> raft r = [Fin 1].
Proof.
  destruct (sim_r_total
              (mkParams (Fin (1 / 10)) (Fin 0) (Fin (-1)) (Fin 0) (Fin 0)
                 (Fin 1))
              ex_h0_setup (fun _ => no_draws) eq_refl) as [st Hs].
  exists st. split; [exact Hs |].
  apply (negative_selection_noise
           (mkParams (Fin (1 / 10)) (Fin 0) (Fin (-1)) (Fin 0) (Fin 0) (Fin 1))
           ex_h0_setup (fun _ => no_draws) st (-1)%R).
  - reflexivity.
  - lra.
  - exact Hs.
Defined.

(** X16. A negative inference-noise parameter is not rejected either: on
    every sequence with at least one sample the belief of every particle
    after the evidence step is NaN and every response is 1; in forward
    simulation the stored belief is NaN. *)
Theorem negative_inference_noise P C N (st : state) (s : R) (i : nat)
  (t : trial) (r : row) :
  sinf P = Fin s -> (s < 0)%R -> sim_r P C N = Some st ->
  trials C !! i = Some t -> (0 < seqlen t)%nat -> st !! i = Some r ->
  belief P t (N i) (prev_row st i) (init_row (nsmp C))
  = Some (replicate (nsmp C) NaN) /\
  raft r = replicate (nsmp C) (Fin 1) /\
  (resamp C = false -> xt r = replicate (nsmp C) NaN).
Proof.
  intros Hsi Hneg Hs Ht Hlen Hr.
  assert (Hsd : exists s', inference_sd P t = Fin s' /\ (s' < 0)%R).
  { exists (sqrt (INR (seqlen t)) * s)%R.
    split; [by apply inference_sd_finite |].
    assert (0 < sqrt (INR (seqlen t)))%R
      by (apply sqrt_lt_R0; by apply lt_0_INR).
    nra. }
  destruct Hsd as (s' & Hsd & Hs').
  destruct (sim_r_survivors P C N st i t r Hs Ht Hr) as (Hwf & _ & _ & Hb).
  apply trial_body_Some in Hb as (x & Hx & _ & _ & Hraft & _ & Hre).
  assert (Hlx : length x = nsmp C).
  { destruct Hwf as (_ & _ & Hlr & _).
    by rewrite Hraft, length_response in Hlr. }
  assert (Hnan : x = replicate (nsmp C) NaN).
  { unfold belief in Hx.
    destruct (correct_belief P t _ _) as [x0|]; [|done].
    simpl in Hx. injection Hx as <-. rewrite length_accumulate in Hlx.
    apply list_eq. intros j. rewrite lookup_accumulate, Hsd.
    destruct (decide (j < nsmp C)%nat) as [Hj|Hj].
    - rewrite lookup_replicate_2 by done.
      destruct (lookup_lt_is_Some_2 x0 j) as [xj ->]; [lia |].
      simpl. by rewrite normrnd_negative.
    - rewrite (lookup_ge_None_2 x0) by lia. simpl. symmetry.
      apply lookup_replicate_None. lia. }
  subst x. split; [done |]. split.
  - rewrite Hraft. unfold response.
    apply list_eq. intros j.
    rewrite list_lookup_fmap, lookup_vnormrnd.
    destruct (decide (j < nsmp C)%nat) as [Hj|Hj].
    + rewrite !lookup_replicate_2 by done. simpl.
      by rewrite normrnd_NaN, respond_NaN.
    + by rewrite !(proj1 (lookup_replicate_None _ _ j)) by lia.
  - intros Hres. rewrite Hres in Hre. by destruct Hre as [-> _].
Qed.

Lemma negative_inference_noise_witness :
  exists (st : state) (r : row),
    sim_r (mkParams (Fin (1 / 10)) (Fin (-1)) (Fin 0) (Fin 0) (Fin 0) (Fin 1))
      ex_h0_setup (fun _ => no_draws) = Some st /\
    st !! 0%nat = Some r /\ raft r = [Fin 1] /\ xt r = [NaN].
Proof.
  destruct (sim_r_total
              (mkParams (Fin (1 / 10)) (Fin (-1)) (Fin 0) (Fin 0) (Fin 0)
                 (Fin 1))
              ex_h0_setup (fun _ => no_draws) eq_refl) as [st Hs].
  destruct (sim_r_row _ _ _ st 0%nat (ex_h0_trial 1) Hs eq_refl)
    as (r & Hr & _ & _).
  exists st, r. split; [exact Hs |]. split; [exact Hr |].
  destruct (negative_inference_noise
              (mkParams (Fin (1 / 10)) (Fin (-1)) (Fin 0) (Fin 0) (Fin 0)
                 (Fin 1))
              ex_h0_setup (fun _ => no_draws) st (-1)%R 0%nat (ex_h0_trial 1) r)
    as (_ & Hraft & Hxt).
  - reflexivity.
  - lra.
  - exact Hs.
  - reflexivity.
  - simpl. lia.
  - exact Hr.
  - split; [exact Hraft | exact (Hxt eq_refl)].
Defined.

(** X17. Without selection noise the log-belief in favor of the response,
    [x .* (3 - 2*response)], is the absolute value of a finite log-belief
    [x]. *)
Theorem favor_is_magnitude (x z : R) :
  favor (Fin x) (respond (normrnd (Fin x) (Fin 0) z)) = Fin (Rabs x).
Proof.
  rewrite normrnd_zero. unfold favor.
  destruct (Rlt_dec x 0) as [Hneg|Hpos].
  - rewrite respond_neg by done. simpl. apply Fin_eq.
    rewrite Rabs_left by done. lra.
  - rewrite respond_nonneg by lra. simpl. apply Fin_eq.
    rewrite Rabs_right by lra. lra.
Qed.

(** X18. In forward simulation without selection noise the arrays agree with
    each other: the response of every particle is 2 if its stored belief is
    negative and 1 otherwise. *)
Theorem forward_response_is_sign P C N (st : state) (i : nat) (r : row)
  (j : nat) :
  resamp C = false -> ssel P = Fin 0 -> sim_r P C N = Some st ->
  st !! i = Some r -> (j < nsmp C)%nat ->
  exists xj : dbl,
    xt r !! j = Some xj /\
    raft r !! j = Some (if dlt xj (Fin 0) then Fin 2 else Fin 1).
Proof.
  intros Hres Hss Hs Hr Hj.
  destruct (sim_r_row_at P C N st i r Hs Hr) as (t & Ht & Hb).
  destruct (sim_r_particle P C N st i t r j Hs Ht Hr Hj)
    as (x & xj & rbj & Hx & Hxj & _ & Hraft & _).
  apply trial_body_Some in Hb as (x' & Hx' & _ & _ & _ & _ & Hre).
  rewrite Hres in Hre. destruct Hre as [Hxt _].
  rewrite Hx in Hx'. injection Hx' as <-.
  exists xj. split; [by rewrite Hxt |].
  by rewrite Hraft, Hss, normrnd_zero, respond_cases.
Qed.

Lemma forward_response_is_sign_witness :
  exists (st : state) (r : row) (xj : dbl),
    sim_r ex_h0_params ex_h0_setup (fun _ => no_draws) = Some st /\
    st !! 0%nat = Some r /\ xt r !! 0%nat = Some xj /\
    raft r !! 0%nat = Some (if dlt xj (Fin 0) then Fin 2 else Fin 1).
Proof.
  destruct (sim_r_total ex_h0_params ex_h0_setup (fun _ => no_draws)
              eq_refl) as [st Hs].
  destruct (sim_r_row _ _ _ st 0%nat (ex_h0_trial 1) Hs eq_refl)
    as (r & Hr & _ & _).
  destruct (forward_response_is_sign ex_h0_params ex_h0_setup
              (fun _ => no_draws) st 0%nat r 0%nat) as (xj & Hxj & Hraft).
  - reflexivity.
  - reflexivity.
  - exact Hs.
  - exact Hr.
  - simpl. lia.
  - exists st, r, xj. auto.
Defined.
